(** * Naive Bayes tweet classifier: tokenizer, training loop and classification

    A shallow embedding of the notebook [naive_bayes_tweet_classifier]:
    the helpers [remove_punctuation] and [tokenize], the training loop that
    fills the global tables [vocabulary], [word_counts_per_candidate] and
    [total_tweet_count], the derived table
    [word_probabilities_per_candidate], the log priors and the
    classification of one tweet.

    Conventions.
    - A Python 2 [str] is a byte string: [String.string] over [ascii].
    - The count tables hold floats whose values are whole numbers
      ([0.0], [1.0], [+= 1]); they are kept in [Z].
    - Every other float (probabilities, priors, logarithms, scores) is
      idealised as a real number: [math.log] is [ln] on the positive reals
      and raises [ValueError] elsewhere, [/] raises [ZeroDivisionError] on a
      zero divisor. Rounding and overflow are not modelled.
    - What depends on the rounding of the floats is stated on a second
      embedding of the same statements over binary64 ([fit_b64],
      [predict_b64]), where [math.log] is a parameter.
    - A dictionary is a [gmap]; reading a missing key raises [KeyError]. *)

From Stdlib Require Import Reals Lra Ascii String Floats.
From stdpp Require Import gmap strings list fin_maps.

Local Open Scope string_scope.

(** ** Characters *)

Module Chars.

Definition code (c : ascii) : nat := nat_of_ascii c.

Definition between (lo hi : nat) (c : ascii) : bool :=
  (lo <=? code c)%nat && (code c <=? hi)%nat.

(** [string.punctuation]: the 32 ASCII punctuation characters
    [!]..[/], [:]..[@], [[]..[`], [{]..[~]. *)
Definition is_punctuation (c : ascii) : bool :=
  between 33 47 c || between 58 64 c || between 91 96 c || between 123 126 c.

Definition is_upper (c : ascii) : bool := between 65 90 c.

(** [str.lower] on one byte (C locale): only [A]..[Z] change. *)
Definition lower_char (c : ascii) : ascii :=
  if is_upper c then ascii_of_nat (code c + 32) else c.

(** Whitespace removed by [str.strip()]: tab, LF, VT, FF, CR and space. *)
Definition is_space (c : ascii) : bool := between 9 13 c || between 32 32 c.

(** The class [\w] of [re] on byte strings without flags:
    [[a-zA-Z0-9_]]. Its complement is [\W]. *)
Definition is_word (c : ascii) : bool :=
  between 48 57 c || between 65 90 c || between 95 95 c || between 97 122 c.

(** A character that survives [remove_punctuation] and [lower] and still
    belongs to [\w]: one of [a]..[z], [0]..[9]. *)
Definition is_token_char (c : ascii) : bool :=
  is_word c && negb (is_punctuation c) && negb (is_upper c).

(** A character left by [remove_punctuation] and [lower]: no punctuation,
    no upper-case letter. *)
Definition kept (c : ascii) : bool :=
  negb (is_punctuation c) && negb (is_upper c).

(** A character of a list of tokens joined by spaces. *)
Definition joined (c : ascii) : bool :=
  is_token_char c || (code c =? 32)%nat.

End Chars.

(** ** Strings *)

Fixpoint str_filter (p : ascii -> bool) (s : string) : string :=
  match s with
  | EmptyString => EmptyString
  | String c r => if p c then String c (str_filter p r) else str_filter p r
  end.

Fixpoint str_map (f : ascii -> ascii) (s : string) : string :=
  match s with
  | EmptyString => EmptyString
  | String c r => String (f c) (str_map f r)
  end.

Fixpoint str_all (p : ascii -> bool) (s : string) : bool :=
  match s with
  | EmptyString => true
  | String c r => p c && str_all p r
  end.

Definition is_empty (s : string) : bool :=
  match s with EmptyString => true | String _ _ => false end.

(** [str.lower()] *)
Definition lower (s : string) : string := str_map Chars.lower_char s.

(** [str.lstrip()], [str.rstrip()], [str.strip()] *)
Fixpoint lstrip (s : string) : string :=
  match s with
  | EmptyString => EmptyString
  | String c r => if Chars.is_space c then lstrip r else s
  end.

Fixpoint rstrip (s : string) : string :=
  match s with
  | EmptyString => EmptyString
  | String c r =>
      let r' := rstrip r in
      if Chars.is_space c && is_empty r' then EmptyString else String c r'
  end.

Definition strip (s : string) : string := rstrip (lstrip s).

(** [sep.join(parts)] *)
Fixpoint join (sep : string) (parts : list string) : string :=
  match parts with
  | [] => EmptyString
  | [p] => p
  | p :: rest => p +:+ sep +:+ join sep rest
  end.

(** [re.split("\W+", line)]: the pieces of [line] between the maximal runs
    of non-word characters. [piece] is the current piece, reversed;
    [in_sep] tells that the previous character belonged to a separator run
    (whose piece has already been emitted). A separator at either end of
    the line leaves an empty piece there, and the empty line gives one
    empty piece. *)
Fixpoint re_split_W_from (in_sep : bool) (piece : string) (s : string)
  : list string :=
  match s with
  | EmptyString => [String.rev piece]
  | String c r =>
      if Chars.is_word c then re_split_W_from false (String c piece) r
      else if in_sep then re_split_W_from true piece r
      else String.rev piece :: re_split_W_from true EmptyString r
  end.

Definition re_split_W (s : string) : list string :=
  re_split_W_from false EmptyString s.

(** ** The tokenizer *)

(** [input_str.translate(table, string.punctuation)] with the identity
    table: delete every punctuation character. *)
Definition remove_punctuation (input_str : string) : string :=
  str_filter (fun c => negb (Chars.is_punctuation c)) input_str.

Definition tokenize (line : string) : list string :=
  let line := remove_punctuation line in
  let line := strip (lower line) in
  List.filter (fun token => negb (is_empty token)) (re_split_W line).

(** ** Exceptions and results *)

Inductive exn := KeyError | ZeroDivisionError | ValueError.

(** The name of the Python exception class. *)
Definition exn_name (e : exn) : string :=
  match e with
  | KeyError => "KeyError"
  | ZeroDivisionError => "ZeroDivisionError"
  | ValueError => "ValueError"
  end.

Inductive result (A : Type) : Type :=
  | Ok (a : A)
  | Raise (e : exn).
Arguments Ok {A} a.
Arguments Raise {A} e.

#[global] Instance result_ret : MRet result := fun A a => Ok a.
#[global] Instance result_bind : MBind result := fun A B k r =>
  match r with
  | Ok a => k a
  | Raise e => Raise e
  end.

(** [d[k]] *)
Definition get_item {V} (d : gmap string V) (k : string) : result V :=
  match d !! k with
  | Some v => Ok v
  | None => Raise KeyError
  end.

(** [d[k] += 1] on a table of counts *)
Definition incr_item (d : gmap string Z) (k : string) : result (gmap string Z) :=
  v ← get_item d k; Ok (<[k := (v + 1)%Z]> d).

(** Float division and [math.log], over the reals. *)
Definition py_div (x y : R) : result R :=
  if Req_dec_T y 0 then Raise ZeroDivisionError else Ok (x / y)%R.

Definition py_log (x : R) : result R :=
  if Rlt_dec 0 x then Ok (ln x) else Raise ValueError.

(** ** The global tables *)

Inductive candidate := trump | hillary.

#[global] Instance candidate_eq_dec : EqDecision candidate.
Proof. solve_decision. Defined.

Definition other (c : candidate) : candidate :=
  match c with trump => hillary | hillary => trump end.

(** A dictionary with exactly the keys ["trump"] and ["hillary"]. *)
Record per_candidate (A : Type) : Type :=
  PerCandidate { of_trump : A; of_hillary : A }.
Arguments PerCandidate {A} of_trump of_hillary.
Arguments of_trump {A} p.
Arguments of_hillary {A} p.

Definition pc_get {A} (c : candidate) (d : per_candidate A) : A :=
  match c with trump => of_trump d | hillary => of_hillary d end.

Definition pc_set {A} (c : candidate) (v : A) (d : per_candidate A)
  : per_candidate A :=
  match c with
  | trump => PerCandidate v (of_hillary d)
  | hillary => PerCandidate (of_trump d) v
  end.

Definition nl : string := String "010"%char EmptyString.

Definition SMOOTHING : Z := 1.

Definition LABEL_MAP : gmap string candidate :=
  {[ "0" +:+ nl := hillary; "1" +:+ nl := trump ]}.

Record globals : Type := Globals {
  word_counts_per_candidate : per_candidate (gmap string Z);
  total_tweet_count : per_candidate Z;
  vocabulary : gmap string Z
}.

Definition initial_globals : globals :=
  {| word_counts_per_candidate := PerCandidate ∅ ∅;
     total_tweet_count := PerCandidate 0%Z 0%Z;
     vocabulary := ∅ |}.

Definition set_word_counts (c : candidate) (d : gmap string Z) (g : globals)
  : globals :=
  {| word_counts_per_candidate := pc_set c d (word_counts_per_candidate g);
     total_tweet_count := total_tweet_count g;
     vocabulary := vocabulary g |}.

Definition set_total_tweet_count (c : candidate) (n : Z) (g : globals)
  : globals :=
  {| word_counts_per_candidate := word_counts_per_candidate g;
     total_tweet_count := pc_set c n (total_tweet_count g);
     vocabulary := vocabulary g |}.

Definition set_vocabulary (d : gmap string Z) (g : globals) : globals :=
  {| word_counts_per_candidate := word_counts_per_candidate g;
     total_tweet_count := total_tweet_count g;
     vocabulary := d |}.

(** ** Statements that mutate the globals and may raise

    A statement maps the globals to the globals it leaves behind and
    either a value or the exception it raised. An exception stops the
    statements that follow; what was written before it stays written. *)

Definition py (A : Type) : Type := globals -> globals * result A.

#[global] Instance py_ret : MRet py := fun A a g => (g, Ok a).
#[global] Instance py_bind : MBind py := fun A B k m g =>
  match m g with
  | (g', Ok a) => k a g'
  | (g', Raise e) => (g', Raise e)
  end.

Definition gets {A} (f : globals -> A) : py A := fun g => (g, Ok (f g)).
Definition modify (f : globals -> globals) : py unit := fun g => (f g, Ok tt).
Definition lift {A} (r : result A) : py A := fun g => (g, r).

Fixpoint for_each {A} (l : list A) (body : A -> py unit) : py unit :=
  match l with
  | [] => mret tt
  | x :: rest => body x ;; for_each rest body
  end.

(** ** The training loop *)

(** [vocabulary[word] += 1] *)
Definition incr_vocabulary (word : string) : py unit :=
  voc ← gets vocabulary;
  voc' ← lift (incr_item voc word);
  modify (set_vocabulary voc').

(** [word_counts_per_candidate[LABEL_MAP[label]][word] += 1] *)
Definition incr_word_count (label word : string) : py unit :=
  cand ← lift (get_item LABEL_MAP label);
  counts ← gets (fun g => pc_get cand (word_counts_per_candidate g));
  counts' ← lift (incr_item counts word);
  modify (set_word_counts cand counts').

(** The body of [for word in tokens]. *)
Definition count_word (label word : string) : py unit :=
  voc ← gets vocabulary;
  (if decide (voc !! word = None) then
     modify (set_vocabulary (<[word := (2 * SMOOTHING)%Z]> voc)) ;;
     wt ← gets (fun g => pc_get trump (word_counts_per_candidate g));
     modify (set_word_counts trump (<[word := SMOOTHING]> wt)) ;;
     wh ← gets (fun g => pc_get hillary (word_counts_per_candidate g));
     modify (set_word_counts hillary (<[word := SMOOTHING]> wh))
   else mret tt) ;;
  incr_vocabulary word ;;
  incr_word_count label word.

(** The body of [for tweet, label in zip(data, labels)]. *)
Definition train_doc (doc : string * string) : py unit :=
  let '(tweet, label) := doc in
  cand ← lift (get_item LABEL_MAP label);
  n ← gets (fun g => pc_get cand (total_tweet_count g));
  modify (set_total_tweet_count cand (n + 1)%Z) ;;
  let tokens := tokenize tweet in
  for_each tokens (count_word label).

(** [docs] is [zip(data, labels)]: the lines of the tweet file paired with
    the lines of the label file. *)
Definition train_loop (docs : list (string * string)) : py unit :=
  for_each docs train_doc.

(** The loop run on the tables as the notebook initialises them. *)
Definition train (docs : list (string * string)) : globals * result unit :=
  train_loop docs initial_globals.

(** ** Word probabilities and priors *)

(** The inner loop [for word, count in word_counts_per_candidate[candidate].items()]
    for one candidate whose tweet count is [total]. *)
Definition derive_for (total : Z) (counts : gmap string Z)
  : result (gmap string R) :=
  map_fold
    (fun word count acc =>
       probs ← acc;
       p ← py_div (IZR count) (IZR total + 2);
       Ok (<[word := p]> probs))
    (Ok ∅) counts.

(** The outer loop [for candidate in word_counts_per_candidate]. The order
    in which a dictionary is traversed is not fixed; no iteration raises
    ([derive_for_run] below), so the order has no effect. *)
Definition derive_word_probabilities (g : globals)
  : result (per_candidate (gmap string R)) :=
  pt ← derive_for (of_trump (total_tweet_count g))
                  (of_trump (word_counts_per_candidate g));
  ph ← derive_for (of_hillary (total_tweet_count g))
                  (of_hillary (word_counts_per_candidate g));
  Ok (PerCandidate pt ph).

(** [sum(total_tweet_count.values())] *)
Definition sum_values (d : per_candidate Z) : R :=
  (IZR (of_trump d) + IZR (of_hillary d))%R.

(** The four assignments that compute the priors and take their logs, in
    the order of the notebook; the result holds [log_prior_trump] and
    [log_prior_hillary]. *)
Definition compute_log_priors (g : globals) : result (per_candidate R) :=
  prior_trump ← py_div (IZR (of_trump (total_tweet_count g)))
                        (sum_values (total_tweet_count g));
  prior_hillary ← py_div (IZR (of_hillary (total_tweet_count g)))
                          (sum_values (total_tweet_count g));
  log_prior_trump ← py_log prior_trump;
  log_prior_hillary ← py_log prior_hillary;
  Ok (PerCandidate log_prior_trump log_prior_hillary).

(** What classification reads: the tables left by the training loop, the
    derived probabilities and the log priors. *)
Record model : Type := Model {
  tables : globals;
  word_probabilities_per_candidate : per_candidate (gmap string R);
  log_prior : per_candidate R
}.

(** Training, derivation of the probabilities and computation of the
    priors, in the order of the notebook. The first component is the state
    of the count tables when the run stopped. *)
Definition fit (docs : list (string * string)) : globals * result model :=
  let run := train docs in
  (run.1,
   run.2 ;;
   probs ← derive_word_probabilities run.1;
   priors ← compute_log_priors run.1;
   Ok (Model run.1 probs priors)).

(** ** Classification *)

(** The body of [for token in test_tokens]; the accumulator is
    [(log_p_tweet_given_trump, log_p_tweet_given_hillary)]. *)
Definition score_token (m : model) (acc : R * R) (token : string)
  : result (R * R) :=
  if decide (is_Some (vocabulary (tables m) !! token)) then
    p_word_given_trump ←
      get_item (of_trump (word_probabilities_per_candidate m)) token;
    log_p_word_given_trump ← py_log p_word_given_trump;
    let log_p_tweet_given_trump := (acc.1 + log_p_word_given_trump)%R in
    p_word_given_hillary ←
      get_item (of_hillary (word_probabilities_per_candidate m)) token;
    log_p_word_given_hillary ← py_log p_word_given_hillary;
    let log_p_tweet_given_hillary := (acc.2 + log_p_word_given_hillary)%R in
    Ok (log_p_tweet_given_trump, log_p_tweet_given_hillary)
  else Ok acc.

Fixpoint score_tokens (m : model) (acc : R * R) (tokens : list string)
  : result (R * R) :=
  match tokens with
  | [] => Ok acc
  | token :: rest => acc' ← score_token m acc token; score_tokens m acc' rest
  end.

(** The comparison of the two posteriors, each a numerator minus the
    shared denominator. *)
Definition compare_posteriors (log_prior_trump log_prior_hillary : R)
    (log_p_tweet_given_trump log_p_tweet_given_hillary : R) : candidate :=
  let p_hillary_given_tweet_denominator :=
    ((log_prior_hillary + log_p_tweet_given_hillary) +
     (log_prior_trump + log_p_tweet_given_trump))%R in
  let p_hillary_given_tweet :=
    ((log_prior_hillary + log_p_tweet_given_hillary)
     - p_hillary_given_tweet_denominator)%R in
  let p_trump_given_tweet_denominator :=
    ((log_prior_hillary + log_p_tweet_given_hillary) +
     (log_prior_trump + log_p_tweet_given_trump))%R in
  let p_trump_given_tweet :=
    ((log_prior_trump + log_p_tweet_given_trump)
     - p_trump_given_tweet_denominator)%R in
  if Rge_dec p_trump_given_tweet p_hillary_given_tweet then trump else hillary.

(** The prediction for one tweet (the first component of the key whose
    counter in [outcomes] is incremented). *)
Definition predict_tokens (m : model) (test_tokens : list string)
  : result candidate :=
  scores ← score_tokens m (0%R, 0%R) test_tokens;
  Ok (compare_posteriors (of_trump (log_prior m)) (of_hillary (log_prior m))
        scores.1 scores.2).

Definition predict (m : model) (test_tweet : string) : result candidate :=
  predict_tokens m (tokenize test_tweet).

(** ** The specification's scoring rule *)

Module Spec.

(** [logScore[c] = logPrior[c] + Σ log(WordProbability[c][t])] over the
    tokens [t] of the text that are in the vocabulary. *)
Definition in_vocabulary (m : model) (t : string) : bool :=
  bool_decide (is_Some (vocabulary (tables m) !! t)).

Definition WordProbability (m : model) (c : candidate) (t : string) : R :=
  default 0%R (pc_get c (word_probabilities_per_candidate m) !! t).

Definition logSum (m : model) (c : candidate) (tokens : list string) : R :=
  foldr Rplus 0%R (List.map (fun t => ln (WordProbability m c t))
                            (List.filter (in_vocabulary m) tokens)).

Definition logScore (m : model) (c : candidate) (tokens : list string) : R :=
  (pc_get c (log_prior m) + logSum m c tokens)%R.

(** The class with the largest score; [trump] when the two are equal. *)
Definition argmax (score : candidate -> R) : candidate :=
  if Rge_dec (score trump) (score hillary) then trump else hillary.

Definition predictedClass (m : model) (text : string) : candidate :=
  argmax (fun c => logScore m c (tokenize text)).

End Spec.

(** ** Predicates of the statements *)

(** A well-formed token: not empty, made of [a]..[z] and [0]..[9]. *)
Definition is_token (t : string) : Prop :=
  is_empty t = false /\ str_all Chars.is_token_char t = true.

(** The label of a document is a key of [LABEL_MAP]. *)
Definition label_known (doc : string * string) : bool :=
  bool_decide (is_Some (LABEL_MAP !! doc.2)).

Definition labels_known (docs : list (string * string)) : bool :=
  forallb label_known docs.

Definition has_class (c : candidate) (doc : string * string) : bool :=
  bool_decide (LABEL_MAP !! doc.2 = Some c).

(** The number of documents of [docs] labelled with candidate [c]. *)
Definition class_count (c : candidate) (docs : list (string * string)) : Z :=
  Z.of_nat (length (List.filter (has_class c) docs)).

(** What the training loop maintains: a word of the vocabulary has a count
    for both candidates, every stored count is at least [SMOOTHING], and
    the tweet counts are not negative. *)
Definition tables_ok (g : globals) : Prop :=
  (forall c w, is_Some (vocabulary g !! w) ->
               is_Some (pc_get c (word_counts_per_candidate g) !! w)) /\
  (forall c w n, pc_get c (word_counts_per_candidate g) !! w = Some n ->
                 (SMOOTHING <= n)%Z) /\
  (forall c, (0 <= pc_get c (total_tweet_count g))%Z).

(** The closed form of what the run computes from the count tables [g]
    when nothing raises: each count divided by the candidate's tweet count
    plus two, and the logarithm of each candidate's share of the tweets. *)
Definition word_probability (total count : Z) : R :=
  (IZR count / (IZR total + 2))%R.

Definition trained_model (g : globals) : model :=
  {| tables := g;
     word_probabilities_per_candidate :=
       PerCandidate
         (word_probability (of_trump (total_tweet_count g))
            <$> of_trump (word_counts_per_candidate g))
         (word_probability (of_hillary (total_tweet_count g))
            <$> of_hillary (word_counts_per_candidate g));
     log_prior :=
       PerCandidate
         (ln (IZR (of_trump (total_tweet_count g))
              / sum_values (total_tweet_count g)))
         (ln (IZR (of_hillary (total_tweet_count g))
              / sum_values (total_tweet_count g))) |}.

(** The number of classes of the specification. *)
Definition numClasses : Z := 2.

(** ** Sample corpora

    The labels are lines of the label file: a digit and a newline. *)

(** The scenario of the specification, with [trump] for its class A. *)
Definition sample_docs : list (string * string) :=
  [("I love cats", "1" +:+ nl); ("I love dogs", "0" +:+ nl);
   ("cats are great", "1" +:+ nl)].

(** One tweet of each candidate, with the same words. *)
Definition balanced_docs : list (string * string) :=
  [("build the wall", "1" +:+ nl); ("build the wall", "0" +:+ nl)].

(** A label file whose last line lacks its newline. *)
Definition unterminated_docs : list (string * string) :=
  [("a b", "0" +:+ nl); ("c", "1")].

(** Tweets of one candidate only. *)
Definition one_sided_docs : list (string * string) :=
  [("a", "0" +:+ nl)].

(** The model of the first corpus. *)
Definition sample_model : model := trained_model (train sample_docs).1.

(** ** Counting occurrences

    Used to state what the tables hold after training. *)

(** The tokens of all tweets of a corpus, in order. *)
Definition all_tokens (docs : list (string * string)) : list string :=
  flat_map (fun doc => tokenize doc.1) docs.

Fixpoint occurrences (w : string) (tokens : list string) : Z :=
  match tokens with
  | [] => 0
  | t :: rest => ((if decide (t = w) then 1 else 0) + occurrences w rest)%Z
  end.

(** The occurrences of [w] in the tweets labelled with candidate [c]. *)
Fixpoint class_occurrences (c : candidate) (w : string)
    (docs : list (string * string)) : Z :=
  match docs with
  | [] => 0
  | doc :: rest =>
      ((if has_class c doc then occurrences w (tokenize doc.1) else 0)
       + class_occurrences c w rest)%Z
  end.

(** A character [a]..[z], [A]..[Z] or [0]..[9]. *)
Definition is_alnum (c : ascii) : bool :=
  Chars.is_word c && negb (Chars.is_punctuation c).

(** The non-empty pieces of [re_split_W_from]. *)
Definition tokens_from (in_sep : bool) (piece : string) (s : string)
  : list string :=
  List.filter (fun token => negb (is_empty token))
              (re_split_W_from in_sep piece s).

(** ** Evaluation on the test set *)

#[global] Instance exn_eq_dec : EqDecision exn.
Proof. solve_decision. Defined.

#[global] Instance result_eq_dec {A} `{EqDecision A} : EqDecision (result A).
Proof. solve_decision. Defined.

(** The dictionary [outcomes], whose four keys are the pairs
    [(our guess, correct label)]: the outer index is the guess. *)
Definition outcomes_table : Type := per_candidate (per_candidate Z).

Definition initial_outcomes : outcomes_table :=
  PerCandidate (PerCandidate 0%Z 0%Z) (PerCandidate 0%Z 0%Z).

(** [outcomes[(guess, truth)]] *)
Definition outcome (guess truth : candidate) (o : outcomes_table) : Z :=
  pc_get truth (pc_get guess o).

(** [outcomes[(guess, truth)] += 1] *)
Definition incr_outcome (guess truth : candidate) (o : outcomes_table)
  : outcomes_table :=
  pc_set guess (pc_set truth (outcome guess truth o + 1)%Z (pc_get guess o)) o.

(** The body of [for test_tweet, test_label in zip(test_data, test_labels)]:
    the scores and the comparison first, then the lookup of the label and
    the increment. *)
Definition evaluate_doc (m : model) (doc : string * string)
    (o : outcomes_table) : outcomes_table * result unit :=
  let '(test_tweet, test_label) := doc in
  match predict m test_tweet with
  | Raise e => (o, Raise e)
  | Ok guess =>
      match get_item LABEL_MAP test_label with
      | Raise e => (o, Raise e)
      | Ok truth => (incr_outcome guess truth o, Ok tt)
      end
  end.

Fixpoint evaluate_loop (m : model) (docs : list (string * string))
    (o : outcomes_table) : outcomes_table * result unit :=
  match docs with
  | [] => (o, Ok tt)
  | doc :: rest =>
      match evaluate_doc m doc o with
      | (o', Ok _) => evaluate_loop m rest o'
      | (o', Raise e) => (o', Raise e)
      end
  end.

Definition evaluate (m : model) (docs : list (string * string))
  : outcomes_table * result unit :=
  evaluate_loop m docs initial_outcomes.

(** [sum(outcomes.values())] *)
Definition sum_outcomes (o : outcomes_table) : R :=
  (IZR (outcome trump trump o) + IZR (outcome trump hillary o)
   + IZR (outcome hillary hillary o) + IZR (outcome hillary trump o))%R.

(** [accuracy] *)
Definition accuracy (o : outcomes_table) : result R :=
  py_div (IZR (outcome hillary hillary o) + IZR (outcome trump trump o))
         (sum_outcomes o).

(** The number of test documents classified as [guess] and labelled
    [truth]. *)
Definition outcome_count (m : model) (guess truth : candidate)
    (docs : list (string * string)) : Z :=
  Z.of_nat (length (filter (fun doc => predict m doc.1 = Ok guess /\
                                       LABEL_MAP !! doc.2 = Some truth) docs)).

(** A test corpus for the sample model. *)
Definition sample_test_docs : list (string * string) :=
  [("I love cats", "1" +:+ nl); ("zzzznonexistentword", "0" +:+ nl)].

(** The count of a word in a table, a missing word standing for the
    value it is given at first sight. *)
Definition vocabulary_count (g : globals) (w : string) : Z :=
  default (2 * SMOOTHING)%Z (vocabulary g !! w).

Definition word_count (g : globals) (c : candidate) (w : string) : Z :=
  default SMOOTHING (pc_get c (word_counts_per_candidate g) !! w).

(** The three word tables have the same keys. *)
Definition same_keys (g : globals) : Prop :=
  forall c w, is_Some (pc_get c (word_counts_per_candidate g) !! w)
              <-> is_Some (vocabulary g !! w).

(** ** The derivation and the classification in binary64

    The floats of the notebook are IEEE 754 binary64 numbers. The
    definitions of this section repeat the derivation of the probabilities,
    the priors and the classification of one tweet over the primitive
    floats, whose [+], [-], [/] and comparisons are those of the hardware,
    as Python's are. [math.log] is the logarithm of the C library: it is a
    variable of the section, and nothing is assumed about it. *)

(** The float that holds a count. *)
Definition float_of_count (n : Z) : float :=
  PrimFloat.of_uint63 (Uint63.of_Z n).

(** Float division: a zero divisor of either sign raises. *)
Definition py_div_b64 (x y : float) : result float :=
  if (y =? 0)%float then Raise ZeroDivisionError else Ok (x / y)%float.

Section Binary64.

Variable math_log : float -> float.

(** [math.log]: [ValueError] on zero and on the negative numbers. *)
Definition py_log_b64 (x : float) : result float :=
  if (x <=? 0)%float then Raise ValueError else Ok (math_log x).

(** [count / (total_tweet_count[candidate]+2)] for every word of one
    candidate. *)
Definition derive_for_b64 (total : Z) (counts : gmap string Z)
  : result (gmap string float) :=
  map_fold
    (fun word count acc =>
       probs ← acc;
       p ← py_div_b64 (float_of_count count) (float_of_count total + 2)%float;
       Ok (<[word := p]> probs))
    (Ok ∅) counts.

Definition derive_word_probabilities_b64 (g : globals)
  : result (per_candidate (gmap string float)) :=
  pt ← derive_for_b64 (of_trump (total_tweet_count g))
                      (of_trump (word_counts_per_candidate g));
  ph ← derive_for_b64 (of_hillary (total_tweet_count g))
                      (of_hillary (word_counts_per_candidate g));
  Ok (PerCandidate pt ph).

(** [sum(total_tweet_count.values())]: the integer [0] plus the two
    counts; float addition is commutative, so the order of the values has
    no effect. *)
Definition sum_values_b64 (d : per_candidate Z) : float :=
  (0 + float_of_count (of_trump d) + float_of_count (of_hillary d))%float.

Definition compute_log_priors_b64 (g : globals)
  : result (per_candidate float) :=
  prior_trump ← py_div_b64 (float_of_count (of_trump (total_tweet_count g)))
                            (sum_values_b64 (total_tweet_count g));
  prior_hillary ← py_div_b64 (float_of_count (of_hillary (total_tweet_count g)))
                              (sum_values_b64 (total_tweet_count g));
  log_prior_trump ← py_log_b64 prior_trump;
  log_prior_hillary ← py_log_b64 prior_hillary;
  Ok (PerCandidate log_prior_trump log_prior_hillary).

Record model_b64 : Type := Model_b64 {
  tables_b64 : globals;
  word_probabilities_b64 : per_candidate (gmap string float);
  log_prior_b64 : per_candidate float
}.

Definition fit_b64 (docs : list (string * string))
  : globals * result model_b64 :=
  let run := train docs in
  (run.1,
   run.2 ;;
   probs ← derive_word_probabilities_b64 run.1;
   priors ← compute_log_priors_b64 run.1;
   Ok (Model_b64 run.1 probs priors)).

(** The body of [for token in test_tokens]. *)
Definition score_token_b64 (m : model_b64) (acc : float * float)
    (token : string) : result (float * float) :=
  if decide (is_Some (vocabulary (tables_b64 m) !! token)) then
    p_word_given_trump ←
      get_item (of_trump (word_probabilities_b64 m)) token;
    log_p_word_given_trump ← py_log_b64 p_word_given_trump;
    let log_p_tweet_given_trump := (acc.1 + log_p_word_given_trump)%float in
    p_word_given_hillary ←
      get_item (of_hillary (word_probabilities_b64 m)) token;
    log_p_word_given_hillary ← py_log_b64 p_word_given_hillary;
    let log_p_tweet_given_hillary :=
      (acc.2 + log_p_word_given_hillary)%float in
    Ok (log_p_tweet_given_trump, log_p_tweet_given_hillary)
  else Ok acc.

Fixpoint score_tokens_b64 (m : model_b64) (acc : float * float)
    (tokens : list string) : result (float * float) :=
  match tokens with
  | [] => Ok acc
  | token :: rest =>
      acc' ← score_token_b64 m acc token; score_tokens_b64 m acc' rest
  end.

(** The two numerators [log_prior_trump+log_p_tweet_given_trump] and
    [log_prior_hillary+log_p_tweet_given_hillary] that the comparison is
    computed from: the log scores of the two candidates as the program
    holds them. *)
Definition numerators_b64 (m : model_b64) (test_tokens : list string)
  : result (float * float) :=
  scores ← score_tokens_b64 m (0%float, 0%float) test_tokens;
  Ok ((of_trump (log_prior_b64 m) + scores.1)%float,
      (of_hillary (log_prior_b64 m) + scores.2)%float).

(** [if p_trump_given_tweet >= p_hillary_given_tweet], after the four
    assignments before it. *)
Definition compare_posteriors_b64 (log_prior_trump log_prior_hillary : float)
    (log_p_tweet_given_trump log_p_tweet_given_hillary : float) : candidate :=
  let p_hillary_given_tweet_denominator :=
    ((log_prior_hillary + log_p_tweet_given_hillary) +
     (log_prior_trump + log_p_tweet_given_trump))%float in
  let p_hillary_given_tweet :=
    ((log_prior_hillary + log_p_tweet_given_hillary)
     - p_hillary_given_tweet_denominator)%float in
  let p_trump_given_tweet_denominator :=
    ((log_prior_hillary + log_p_tweet_given_hillary) +
     (log_prior_trump + log_p_tweet_given_trump))%float in
  let p_trump_given_tweet :=
    ((log_prior_trump + log_p_tweet_given_trump)
     - p_trump_given_tweet_denominator)%float in
  if (p_hillary_given_tweet <=? p_trump_given_tweet)%float
  then trump else hillary.

Definition predict_tokens_b64 (m : model_b64) (test_tokens : list string)
  : result candidate :=
  scores ← score_tokens_b64 m (0%float, 0%float) test_tokens;
  Ok (compare_posteriors_b64 (of_trump (log_prior_b64 m))
        (of_hillary (log_prior_b64 m)) scores.1 scores.2).

Definition predict_b64 (m : model_b64) (test_tweet : string)
  : result candidate :=
  predict_tokens_b64 m (tokenize test_tweet).

(** A text whose two numerators are computed, equal and finite. *)
Definition finite_tie (m : model_b64) (text : string) : Prop :=
  exists numerator_trump numerator_hillary : float,
    numerators_b64 m (tokenize text)
    = Ok (numerator_trump, numerator_hillary) /\
    (numerator_trump =? numerator_hillary)%float = true /\
    is_finite numerator_trump = true.

End Binary64.

(** What the comments of the notebook describe: the candidate chosen by
    comparing the two numerators themselves. *)
Definition compare_numerators_b64 (numerator_trump numerator_hillary : float)
  : candidate :=
  if (numerator_hillary <=? numerator_trump)%float then trump else hillary.

(** A binary64 number that is neither an infinity nor a NaN, on the
    specification of the floats. *)
Definition sf_finite (x : spec_float) : bool :=
  match x with
  | S754_zero _ | S754_finite _ _ _ => true
  | S754_infinity _ | S754_nan => false
  end.

(** *** Values of the logarithm

    The results of [math.log] (the [log] of the GNU C library) at the
    arguments that the examples below reach: [0.5], [2/3] and the eight
    quotients [c/1667]. *)
Definition log_table : list (float * float) :=
  [ (0x1p-1, -0x1.62e42fefa39efp-1);
    (0x1.5555555555555p-1, -0x1.9f323ecbf984dp-2);
    (0x1.2f73f1df22dc3p-3, -0x1.e8cdf32cd2dc1p+0);
    (0x1.8573a33e80b0fp-3, -0x1.a8edd657ece4ap+0);
    (0x1.11f7b50ee56ecp-3, -0x1.017c6848aa1f2p+1);
    (0x1.544f3de36fa51p-3, -0x1.cb759cd666090p+0);
    (0x1.8e0d34fb3d463p-3, -0x1.a3566ab8b66a2p+0);
    (0x1.0474192f73f1ep-3, -0x1.07f5fe2fd7cbbp+1);
    (0x1.f055ffb15f5ddp-4, -0x1.0e254bca6d380p+1);
    (0x1.eb6bf58eaa764p-4, -0x1.0f6b593739db7p+1) ]%float.

(** [math_log] returns the values of the table. *)
Definition agrees_with_log_table (math_log : float -> float) : Prop :=
  Forall (fun entry => math_log entry.1 = entry.2) log_table.

(** A function that does: the table itself, NaN elsewhere. *)
Definition table_log (x : float) : float :=
  match List.find (fun entry => (entry.1 =? x)%float) log_table with
  | Some entry => entry.2
  | None => nan
  end.

(** *** A corpus whose scores meet at a power of two

    1665 tweets of each candidate: one that holds all the words and 1664
    blank lines. The word counts of the two candidates are permutations
    of each other with the same product. *)
Fixpoint repeat_word (w : string) (n : nat) : string :=
  match n with
  | O => EmptyString
  | S n' => w +:+ " " +:+ repeat_word w n'
  end.

Definition tweet_of (words : list (string * nat)) : string :=
  foldr (fun wn rest => repeat_word wn.1 wn.2 +:+ rest) nl words.

Definition rounding_docs : list (string * string) :=
  (tweet_of [("a", 246); ("b", 316); ("c", 222); ("d", 276);
             ("e", 323); ("f", 211); ("g", 201); ("h", 199)]%nat,
   "1" +:+ nl)
  :: replicate 1664 (nl, "1" +:+ nl)
  ++ (tweet_of [("a", 211); ("b", 222); ("c", 323); ("d", 199);
                ("e", 201); ("f", 276); ("g", 316); ("h", 246)]%nat,
      "0" +:+ nl)
  :: replicate 1664 (nl, "0" +:+ nl).

Definition rounding_tweet : string := "a b c d e f g h" +:+ nl.

(** * Properties *)

(** ** Characters and strings *)

Section CharFacts.
Import Chars.

Local Ltac by_enumeration c :=
  destruct c as [[] [] [] [] [] [] [] []]; vm_compute; intuition congruence.

Lemma token_char_is_word c : is_token_char c = true -> is_word c = true.
Proof. by_enumeration c. Qed.

Lemma token_char_not_punctuation c :
  is_token_char c = true -> negb (is_punctuation c) = true.
Proof. by_enumeration c. Qed.

Lemma token_char_lower c : is_token_char c = true -> lower_char c = c.
Proof. by_enumeration c. Qed.

Lemma token_char_not_space c : is_token_char c = true -> is_space c = false.
Proof. by_enumeration c. Qed.

Lemma lower_char_no_upper c :
  negb (is_punctuation c) = true ->
  negb (is_punctuation (lower_char c)) && negb (is_upper (lower_char c)) = true.
Proof. by_enumeration c. Qed.

Lemma word_char_is_token_char c :
  negb (is_punctuation c) && negb (is_upper c) = true ->
  is_word c = true -> is_token_char c = true.
Proof. by_enumeration c. Qed.

End CharFacts.

Section StringFacts.
Implicit Types (p q : ascii -> bool) (s t : string).

Lemma str_app_nil_l t : "" +:+ t = t.
Proof. reflexivity. Qed.

Lemma str_app_cons c s t : String c s +:+ t = String c (s +:+ t).
Proof. reflexivity. Qed.

Lemma str_app_nil_r s : s +:+ "" = s.
Proof. induction s as [|c s IH]; [done|]. by rewrite str_app_cons, IH. Qed.

Lemma str_app_assoc s t u : (s +:+ t) +:+ u = s +:+ (t +:+ u).
Proof. induction s as [|c s IH]; [done|]. by rewrite !str_app_cons, IH. Qed.

Lemma str_all_app p s t : str_all p (s +:+ t) = str_all p s && str_all p t.
Proof.
  induction s as [|c s IH]; [done|].
  rewrite str_app_cons. simpl. by rewrite IH, andb_assoc.
Qed.

Lemma str_all_rev_app p s t :
  str_all p (String.rev_app s t) = str_all p s && str_all p t.
Proof.
  revert t. induction s as [|c s IH]; intros t; simpl; [done|].
  rewrite IH. simpl. destruct (p c), (str_all p s); done.
Qed.

Lemma str_all_rev p s : str_all p (String.rev s) = str_all p s.
Proof. unfold String.rev. rewrite str_all_rev_app. simpl. apply andb_true_r. Qed.

Lemma str_all_impl p q s :
  (forall c, p c = true -> q c = true) ->
  str_all p s = true -> str_all q s = true.
Proof.
  intros Hpq. induction s as [|c s IH]; simpl; [done|].
  intros [Hc Hs]%andb_true_iff. by rewrite (Hpq c Hc), IH.
Qed.

Lemma str_all_filter p s : str_all p (str_filter p s) = true.
Proof.
  induction s as [|c s IH]; simpl; [done|].
  destruct (p c) eqn:Hc; simpl; [by rewrite Hc|done].
Qed.

Lemma str_filter_id p s : str_all p s = true -> str_filter p s = s.
Proof.
  induction s as [|c s IH]; simpl; [done|].
  intros [Hc Hs]%andb_true_iff. by rewrite Hc, IH.
Qed.

Lemma str_all_map p q (f : ascii -> ascii) s :
  (forall c, p c = true -> q (f c) = true) ->
  str_all p s = true -> str_all q (str_map f s) = true.
Proof.
  intros Hf. induction s as [|c s IH]; simpl; [done|].
  intros [Hc Hs]%andb_true_iff. by rewrite (Hf c Hc), IH.
Qed.

Lemma str_map_id p (f : ascii -> ascii) s :
  (forall c, p c = true -> f c = c) ->
  str_all p s = true -> str_map f s = s.
Proof.
  intros Hf. induction s as [|c s IH]; simpl; [done|].
  intros [Hc Hs]%andb_true_iff. by rewrite (Hf c Hc), IH.
Qed.

Lemma str_all_lstrip p s : str_all p s = true -> str_all p (lstrip s) = true.
Proof.
  induction s as [|c s IH]; simpl; [done|].
  intros [Hc Hs]%andb_true_iff.
  destruct (Chars.is_space c); [by apply IH|]. simpl. by rewrite Hc, Hs.
Qed.

Lemma str_all_rstrip p s : str_all p s = true -> str_all p (rstrip s) = true.
Proof.
  induction s as [|c s IH]; simpl; [done|].
  intros [Hc Hs]%andb_true_iff.
  destruct (Chars.is_space c && is_empty (rstrip s)); simpl; [done|].
  by rewrite Hc, IH.
Qed.

Lemma str_all_strip p s : str_all p s = true -> str_all p (strip s) = true.
Proof. intros. by apply str_all_rstrip, str_all_lstrip. Qed.

Lemma rev_app_rev_app s t u :
  String.rev_app (String.rev_app s t) u = String.rev_app t (s +:+ u).
Proof.
  revert t u. induction s as [|c s IH]; intros t u; simpl; [done|].
  by rewrite IH.
Qed.

Lemma rev_app_app t u : String.rev_app t u = String.rev t +:+ u.
Proof.
  unfold String.rev. revert u. induction t as [|c t IH]; intros u; simpl; [done|].
  rewrite (IH (String c u)), (IH (String c "")).
  by rewrite str_app_assoc.
Qed.

Lemma rev_rev_app s t : String.rev (String.rev_app s t) = String.rev t +:+ s.
Proof.
  unfold String.rev at 1. rewrite rev_app_rev_app, str_app_nil_r.
  apply rev_app_app.
Qed.

End StringFacts.

(** ** The tokenizer *)

Section TokenizerFacts.
Import Chars.

Lemma normalised_line_kept line :
  str_all kept (strip (lower (remove_punctuation line))) = true.
Proof.
  apply str_all_strip.
  apply str_all_map with (p := fun c => negb (is_punctuation c)).
  - apply lower_char_no_upper.
  - apply str_all_filter.
Qed.

Lemma re_split_W_from_pieces in_sep piece s :
  str_all kept s = true -> str_all is_token_char piece = true ->
  Forall (fun t => str_all is_token_char t = true)
         (re_split_W_from in_sep piece s).
Proof.
  revert in_sep piece. induction s as [|c s IH]; intros in_sep piece; simpl.
  - intros _ Hp. constructor; [by rewrite str_all_rev|constructor].
  - intros [Hc Hs]%andb_true_iff Hp.
    destruct (is_word c) eqn:Hw.
    + apply IH; [done|]. simpl.
      by rewrite (word_char_is_token_char c Hc Hw), Hp.
    + destruct in_sep; [by apply IH|].
      constructor; [by rewrite str_all_rev|by apply IH].
Qed.

Lemma filter_nonempty_tokens (l : list string) :
  Forall (fun t => str_all is_token_char t = true) l ->
  Forall is_token (List.filter (fun token => negb (is_empty token)) l).
Proof.
  induction 1 as [|t l Ht _ IH]; simpl; [constructor|].
  destruct (is_empty t) eqn:He; simpl; [done|].
  constructor; [by split|done].
Qed.

Lemma filter_tokens_id (l : list string) :
  Forall is_token l ->
  List.filter (fun token => negb (is_empty token)) l = l.
Proof.
  induction 1 as [|t l [He _] _ IH]; simpl; [done|].
  by rewrite He, IH.
Qed.

(** Every token that [tokenize] returns is well formed. *)
Lemma tokenize_tokens line : Forall is_token (tokenize line).
Proof.
  unfold tokenize. apply filter_nonempty_tokens.
  apply re_split_W_from_pieces; [apply normalised_line_kept|done].
Qed.

(** A run of word characters is taken into the current piece. *)
Lemma re_split_W_from_word_run t piece rest :
  str_all is_word t = true ->
  re_split_W_from false piece (t +:+ rest)
  = re_split_W_from false (String.rev_app t piece) rest.
Proof.
  revert piece. induction t as [|c t IH]; intros piece; [done|].
  rewrite str_app_cons. simpl. intros [Hc Ht]%andb_true_iff.
  rewrite Hc. by apply IH.
Qed.

Lemma join_cons_char c t (l : list string) :
  join " " (String c t :: l) = String c (join " " (t :: l)).
Proof. destruct l; done. Qed.

Lemma token_chars_word t :
  str_all is_token_char t = true -> str_all is_word t = true.
Proof. apply str_all_impl, token_char_is_word. Qed.

Lemma re_split_W_from_space piece c s :
  is_word c = true ->
  re_split_W_from false piece (String " " (String c s))
  = String.rev piece :: re_split_W_from false (String c "") s.
Proof. intros Hc. simpl. by rewrite Hc. Qed.

Lemma re_split_W_from_join (l : list string) t piece :
  str_all is_word t = true -> Forall is_token l ->
  re_split_W_from false piece (join " " (t :: l))
  = (String.rev piece +:+ t) :: l.
Proof.
  intros Ht Hl. revert t piece Ht.
  induction Hl as [|t' l [He' Ht'] _ IH]; intros t piece Ht.
  - simpl. rewrite <- (str_app_nil_r t) at 1.
    rewrite re_split_W_from_word_run by done. simpl.
    by rewrite rev_rev_app.
  - change (join " " (t :: t' :: l)) with (t +:+ " " +:+ join " " (t' :: l)).
    rewrite re_split_W_from_word_run by done.
    rewrite str_app_cons, str_app_nil_l.
    destruct t' as [|c t']; [done|].
    rewrite join_cons_char. simpl in Ht'. apply andb_true_iff in Ht' as [Hc Ht'].
    rewrite re_split_W_from_space by (by apply token_char_is_word).
    rewrite IH by (by apply token_chars_word).
    by rewrite rev_rev_app.
Qed.

Lemma re_split_W_join (l : list string) :
  Forall is_token l ->
  List.filter (fun token => negb (is_empty token)) (re_split_W (join " " l)) = l.
Proof.
  intros Hl. destruct Hl as [|t l Ht Hl]; [done|].
  unfold re_split_W. rewrite re_split_W_from_join.
  - apply filter_tokens_id. by constructor.
  - apply token_chars_word, Ht.
  - done.
Qed.

Lemma join_chars (l : list string) :
  Forall is_token l -> str_all joined (join " " l) = true.
Proof.
  induction 1 as [|t l [_ Ht] Hl IH]; [done|].
  assert (str_all joined t = true) as Hj.
  { revert Ht. apply str_all_impl. intros c Hc. unfold joined. by rewrite Hc. }
  destruct Hl as [|t' l Ht' Hl]; [done|].
  change (join " " (t :: t' :: l)) with (t +:+ " " +:+ join " " (t' :: l)).
  rewrite !str_all_app, Hj, IH. done.
Qed.

Lemma joined_not_punctuation c :
  joined c = true -> negb (is_punctuation c) = true.
Proof. destruct c as [[] [] [] [] [] [] [] []]; vm_compute; intuition congruence. Qed.

Lemma joined_lower c : joined c = true -> lower_char c = c.
Proof. destruct c as [[] [] [] [] [] [] [] []]; vm_compute; intuition congruence. Qed.

Lemma lstrip_join (l : list string) :
  Forall is_token l -> lstrip (join " " l) = join " " l.
Proof.
  destruct 1 as [|t l [He Ht] Hl]; [done|].
  destruct t as [|c t]; [done|].
  rewrite join_cons_char. simpl in *.
  apply andb_true_iff in Ht as [Hc _].
  by rewrite (token_char_not_space c Hc).
Qed.

Lemma rstrip_app_token t rest :
  str_all is_token_char t = true -> rstrip (t +:+ rest) = t +:+ rstrip rest.
Proof.
  induction t as [|c t IH]; [done|].
  rewrite !str_app_cons. simpl. intros [Hc Ht]%andb_true_iff.
  by rewrite (token_char_not_space c Hc), IH.
Qed.

Lemma join_not_empty t (l : list string) :
  is_token t -> is_empty (join " " (t :: l)) = false.
Proof. intros [He _]. destruct t; [done|]. by rewrite join_cons_char. Qed.

Lemma rstrip_join (l : list string) :
  Forall is_token l -> rstrip (join " " l) = join " " l.
Proof.
  induction 1 as [|t l [He Ht] Hl IH]; [done|].
  destruct Hl as [|t' l Ht' Hl].
  - simpl. rewrite <- (str_app_nil_r t). by rewrite rstrip_app_token.
  - change (join " " (t :: t' :: l)) with (t +:+ " " +:+ join " " (t' :: l)).
    rewrite rstrip_app_token by done. f_equal.
    rewrite str_app_cons, str_app_nil_l.
    change (rstrip (String " " ?s)) with
      (if is_space " " && is_empty (rstrip s) then "" else String " " (rstrip s)).
    rewrite IH. by rewrite (join_not_empty t' l Ht').
Qed.

(** Tokenizing a list of well-formed tokens joined by single spaces gives
    the list back. *)
Lemma tokenize_join (l : list string) :
  Forall is_token l -> tokenize (join " " l) = l.
Proof.
  intros Hl. unfold tokenize, remove_punctuation, lower, strip.
  pose proof (join_chars l Hl) as Hj.
  rewrite str_filter_id
    by (revert Hj; apply str_all_impl, joined_not_punctuation).
  rewrite (str_map_id joined) by (done || apply joined_lower).
  rewrite lstrip_join, rstrip_join by done.
  by apply re_split_W_join.
Qed.

End TokenizerFacts.

(** ** The training loop *)

Section TrainingFacts.

Local Ltac unfold_py :=
  unfold gets, modify, lift, mbind, py_bind, mret, py_ret.

Local Ltac by_word w word :=
  destruct (decide (w = word)) as [->|?]; simpl;
  rewrite ?lookup_insert_eq, ?lookup_insert_ne by done;
  eauto.

Lemma initial_globals_ok : tables_ok initial_globals.
Proof.
  repeat split; simpl.
  - intros c w []. by rewrite lookup_empty in *.
  - intros [] w n; simpl; by rewrite lookup_empty.
  - intros []; simpl; lia.
Qed.

Lemma pc_get_set {A} c c' (v : A) d :
  pc_get c (pc_set c' v d) = if decide (c = c') then v else pc_get c d.
Proof. by destruct c, c'. Qed.

(** One word of a tweet whose label is known: no exception, the
    invariant is kept and the tweet counts are untouched. *)
Lemma count_word_run label cand word g :
  LABEL_MAP !! label = Some cand -> tables_ok g ->
  exists g', count_word label word g = (g', Ok tt) /\ tables_ok g' /\
             total_tweet_count g' = total_tweet_count g.
Proof.
  intros Hl (H1 & H2 & H3).
  unfold count_word, incr_vocabulary, incr_word_count, incr_item, get_item.
  unfold_py. rewrite Hl.
  destruct (decide (vocabulary g !! word = None)) as [Hn|Hs]; simpl.
  - rewrite lookup_insert_eq. simpl.
    destruct cand; simpl; rewrite lookup_insert_eq; simpl;
      (eexists; split; [reflexivity|split; [|done]]).
    all: repeat split; simpl; [intros [] w | intros [] w n | done];
      by_word w word.
    all: try (intros; simplify_eq; unfold SMOOTHING; lia).
    all: first [apply (H1 trump) | apply (H1 hillary)
               | apply (H2 trump) | apply (H2 hillary)].
  - assert (is_Some (vocabulary g !! word)) as Hv.
    { by destruct (vocabulary g !! word); [eexists|]. }
    destruct (H1 cand word Hv) as [n Hn].
    destruct Hv as [v Hv]. rewrite Hv. simpl. rewrite Hn. simpl.
    eexists; split; [reflexivity|split; [|done]].
    pose proof (H2 cand word n Hn) as Hge.
    destruct cand; simpl in *.
    all: repeat split; simpl; [intros [] w | intros [] w m | done];
      by_word w word.
    all: try (intros; simplify_eq; unfold SMOOTHING in *; lia).
    all: try (intros _; first [apply (H1 trump) | apply (H1 hillary)];
              by rewrite Hv).
    all: first [apply (H1 trump) | apply (H1 hillary)
               | apply (H2 trump) | apply (H2 hillary)].
Qed.

Lemma for_each_cons {A} (x : A) l body g :
  for_each (x :: l) body g
  = match body x g with
    | (g', Ok _) => for_each l body g'
    | (g', Raise e) => (g', Raise e)
    end.
Proof. reflexivity. Qed.

Lemma count_words_run label cand (tokens : list string) g :
  LABEL_MAP !! label = Some cand -> tables_ok g ->
  exists g', for_each tokens (count_word label) g = (g', Ok tt) /\
             tables_ok g' /\ total_tweet_count g' = total_tweet_count g.
Proof.
  intros Hl. revert g. induction tokens as [|word tokens IH]; intros g Hg.
  - by exists g.
  - destruct (count_word_run label cand word g Hl Hg) as (g1 & E1 & Hg1 & T1).
    destruct (IH g1 Hg1) as (g2 & E2 & Hg2 & T2).
    exists g2. simpl. unfold_py. rewrite E1, E2. by rewrite T2, T1.
Qed.

(** One document with a known label. *)
Lemma train_doc_run tweet label cand g :
  LABEL_MAP !! label = Some cand -> tables_ok g ->
  exists g', train_doc (tweet, label) g = (g', Ok tt) /\ tables_ok g' /\
             total_tweet_count g'
             = pc_set cand (pc_get cand (total_tweet_count g) + 1)%Z
                      (total_tweet_count g).
Proof.
  intros Hl (H1 & H2 & H3).
  set (g1 := set_total_tweet_count cand
               (pc_get cand (total_tweet_count g) + 1)%Z g).
  assert (tables_ok g1) as Hg1.
  { repeat split; [done..|]. intros c. simpl. rewrite pc_get_set.
    case_decide; [|done]. specialize (H3 cand). lia. }
  destruct (count_words_run label cand (tokenize tweet) g1 Hl Hg1)
    as (g2 & E2 & Hg2 & T2).
  exists g2. unfold train_doc, get_item. unfold_py. rewrite Hl.
  fold g1. by rewrite E2.
Qed.

(** One document whose label is missing from [LABEL_MAP]: [KeyError],
    before anything is written. *)
Lemma train_doc_raise tweet label g :
  LABEL_MAP !! label = None ->
  train_doc (tweet, label) g = (g, Raise KeyError).
Proof. intros Hl. unfold train_doc, get_item. unfold_py. by rewrite Hl. Qed.

Lemma class_count_cons c tweet label docs :
  class_count c ((tweet, label) :: docs)
  = ((if decide (LABEL_MAP !! label = Some c) then 1 else 0)
     + class_count c docs)%Z.
Proof.
  unfold class_count, has_class. simpl. unfold bool_decide at 1.
  destruct (decide_rel _ _ _) as [H|H]; case_decide; try done; simpl; lia.
Qed.

Lemma class_count_nonneg c docs : (0 <= class_count c docs)%Z.
Proof. unfold class_count. lia. Qed.

(** A corpus whose labels are all known is counted to the end. *)
Lemma train_loop_run docs g :
  labels_known docs = true -> tables_ok g ->
  exists g', train_loop docs g = (g', Ok tt) /\ tables_ok g' /\
    forall c, pc_get c (total_tweet_count g')
              = (pc_get c (total_tweet_count g) + class_count c docs)%Z.
Proof.
  revert g. induction docs as [|[tweet label] docs IH]; intros g Hk Hg.
  - exists g. split; [done|split; [done|]].
    intros c. unfold class_count. simpl. lia.
  - simpl in Hk. apply andb_true_iff in Hk as [Hl Hk].
    apply bool_decide_eq_true in Hl as [cand Hl]. simpl in Hl.
    destruct (train_doc_run tweet label cand g Hl Hg) as (g1 & E1 & Hg1 & T1).
    destruct (IH g1 Hk Hg1) as (g2 & E2 & Hg2 & T2).
    exists g2. unfold train_loop in *. rewrite for_each_cons, E1, E2. split; [done|split; [done|]].
    intros c. rewrite T2, T1, pc_get_set, class_count_cons, Hl.
    repeat case_decide; simplify_eq; lia.
Qed.

(** The loop raises only at the first document whose label is unknown,
    and leaves the tables as the documents before it made them. *)
Lemma train_loop_raise docs g g' e :
  tables_ok g -> train_loop docs g = (g', Raise e) ->
  exists pre bad post,
    docs = (pre ++ bad :: post)%list /\ labels_known pre = true /\
    LABEL_MAP !! bad.2 = None /\ e = KeyError /\
    train_loop pre g = (g', Ok tt).
Proof.
  revert g. induction docs as [|[tweet label] docs IH]; intros g Hg.
  - by intros [=].
  - destruct (LABEL_MAP !! label) as [cand|] eqn:Hl.
    + destruct (train_doc_run tweet label cand g Hl Hg) as (g1 & E1 & Hg1 & _).
      unfold train_loop in *. rewrite for_each_cons, E1. intros E.
      destruct (IH g1 Hg1 E) as (pre & bad & post & -> & Hk & Hb & -> & Ep).
      exists ((tweet, label) :: pre), bad, post.
      split; [done|]. split; [|split; [done|split; [done|]]].
      * simpl. rewrite Hk, andb_true_r. apply bool_decide_eq_true.
        simpl. by rewrite Hl.
      * by rewrite for_each_cons, E1.
    + unfold train_loop. rewrite for_each_cons.
      rewrite (train_doc_raise tweet label g Hl). intros [= <- <-].
      by exists [], (tweet, label), docs.
Qed.

End TrainingFacts.

(** ** Word probabilities, priors and the whole run *)

Section FitFacts.
Local Open Scope R_scope.

Lemma IZR_nonneg (n : Z) : (0 <= n)%Z -> 0 <= IZR n.
Proof. intros H. by apply IZR_le in H. Qed.

Lemma IZR_pos (n : Z) : (0 < n)%Z -> 0 < IZR n.
Proof. intros H. by apply IZR_lt in H. Qed.

Lemma py_div_run x y : y <> 0 -> py_div x y = Ok (x / y).
Proof. intros H. unfold py_div. by destruct (Req_dec_T y 0). Qed.

Lemma py_log_run x : 0 < x -> py_log x = Ok (ln x).
Proof. intros H. unfold py_log. by destruct (Rlt_dec 0 x). Qed.

Lemma py_log_raise x : x <= 0 -> py_log x = Raise ValueError.
Proof. intros H. unfold py_log. destruct (Rlt_dec 0 x); [lra|done]. Qed.

Lemma word_probability_pos total count :
  (0 <= total)%Z -> (SMOOTHING <= count)%Z -> 0 < word_probability total count.
Proof.
  intros Ht Hc. unfold word_probability, SMOOTHING in *.
  apply IZR_nonneg in Ht. apply IZR_le in Hc.
  apply Rdiv_lt_0_compat; lra.
Qed.

(** The division never raises: the divisor is at least two. *)
Lemma derive_for_run total (counts : gmap string Z) :
  (0 <= total)%Z ->
  derive_for total counts = Ok (word_probability total <$> counts).
Proof.
  intros Ht. unfold derive_for.
  apply (map_fold_weak_ind
           (fun r (m : gmap string Z) => r = Ok (word_probability total <$> m))).
  - by rewrite fmap_empty.
  - intros word count m r _ ->. simpl.
    rewrite py_div_run by (apply IZR_nonneg in Ht; lra).
    simpl. by rewrite fmap_insert.
Qed.

Lemma derive_word_probabilities_run g :
  tables_ok g ->
  derive_word_probabilities g
  = Ok (word_probabilities_per_candidate (trained_model g)).
Proof.
  intros (_ & _ & H3). unfold derive_word_probabilities.
  rewrite (derive_for_run _ _ (H3 trump)). simpl.
  by rewrite (derive_for_run _ _ (H3 hillary)).
Qed.

Lemma compute_log_priors_run g :
  (0 < of_trump (total_tweet_count g))%Z ->
  (0 < of_hillary (total_tweet_count g))%Z ->
  compute_log_priors g = Ok (log_prior (trained_model g)).
Proof.
  intros Ht%IZR_pos Hh%IZR_pos. unfold compute_log_priors, sum_values.
  rewrite !py_div_run by lra. simpl.
  rewrite !py_log_run by (apply Rdiv_lt_0_compat; lra). done.
Qed.

(** No tweet at all: the first division is by zero. *)
Lemma compute_log_priors_no_tweet g :
  of_trump (total_tweet_count g) = 0%Z ->
  of_hillary (total_tweet_count g) = 0%Z ->
  compute_log_priors g = Raise ZeroDivisionError.
Proof.
  intros Ht Hh. unfold compute_log_priors, sum_values, py_div.
  rewrite Ht, Hh. destruct (Req_dec_T (0 + 0) 0) as [|Hne]; [done|lra].
Qed.

(** Tweets of one candidate only: the prior of the other is zero and its
    logarithm is undefined. *)
Lemma compute_log_priors_one_sided g c :
  pc_get c (total_tweet_count g) = 0%Z ->
  (0 < pc_get (other c) (total_tweet_count g))%Z ->
  compute_log_priors g = Raise ValueError.
Proof.
  intros Hc Ho%IZR_pos. unfold compute_log_priors, sum_values.
  destruct c; simpl in *; rewrite Hc in *.
  - rewrite !py_div_run by lra. simpl.
    rewrite (py_log_raise (0 / _)); [done|]. unfold Rdiv. lra.
  - rewrite !py_div_run by lra. simpl.
    rewrite (py_log_raise (0 / _)) by (unfold Rdiv; lra).
    rewrite py_log_run by (apply Rdiv_lt_0_compat; lra). done.
Qed.

Lemma compute_log_priors_raise g e :
  compute_log_priors g = Raise e -> e <> KeyError.
Proof.
  unfold compute_log_priors, py_div, py_log.
  repeat (match goal with
          | |- context [Req_dec_T ?x ?y] => destruct (Req_dec_T x y)
          | |- context [Rlt_dec ?x ?y] => destruct (Rlt_dec x y)
          end; simpl); by intros [= <-].
Qed.

Lemma compute_log_priors_inv g priors :
  tables_ok g -> compute_log_priors g = Ok priors ->
  (0 < of_trump (total_tweet_count g))%Z /\
  (0 < of_hillary (total_tweet_count g))%Z.
Proof.
  intros (_ & _ & H3) E.
  pose proof (H3 trump) as Ht. pose proof (H3 hillary) as Hh. simpl in *.
  destruct (decide (of_trump (total_tweet_count g) = 0%Z)) as [Et|Et];
    destruct (decide (of_hillary (total_tweet_count g) = 0%Z)) as [Eh|Eh].
  - by rewrite compute_log_priors_no_tweet in E.
  - rewrite (compute_log_priors_one_sided g trump) in E; [done..|simpl; lia].
  - rewrite (compute_log_priors_one_sided g hillary) in E; [done..|simpl; lia].
  - lia.
Qed.

End FitFacts.

Section RunFacts.

Lemma train_loop_ok_labels docs g g' :
  tables_ok g -> train_loop docs g = (g', Ok tt) -> labels_known docs = true.
Proof.
  intros Hg E. destruct (labels_known docs) eqn:Hk; [done|].
  exfalso. revert g Hg E.
  induction docs as [|[tweet label] docs IH]; intros g Hg; [done|].
  unfold train_loop in *. rewrite for_each_cons.
  destruct (LABEL_MAP !! label) as [cand|] eqn:Hl.
  - destruct (train_doc_run tweet label cand g Hl Hg) as (g1 & -> & Hg1 & _).
    apply IH; [|done]. simpl in Hk. apply andb_false_iff in Hk as [Hk|Hk]; [|done].
    apply bool_decide_eq_false in Hk. simpl in Hk. rewrite Hl in Hk.
    by destruct Hk.
  - by rewrite (train_doc_raise tweet label g Hl).
Qed.

Lemma train_ok_inv docs g :
  train docs = (g, Ok tt) ->
  labels_known docs = true /\ tables_ok g /\
  forall c, pc_get c (total_tweet_count g) = class_count c docs.
Proof.
  unfold train. intros E.
  pose proof (train_loop_ok_labels _ _ _ initial_globals_ok E) as Hk.
  destruct (train_loop_run docs _ Hk initial_globals_ok) as (g' & E' & Hg & T).
  rewrite E in E'. injection E' as <-. split; [done|split; [done|]].
  intros c. rewrite T. by destruct c.
Qed.

Lemma train_run docs :
  labels_known docs = true -> train docs = ((train docs).1, Ok tt).
Proof.
  intros Hk. unfold train.
  destruct (train_loop_run docs _ Hk initial_globals_ok) as (g' & E' & _).
  by rewrite E'.
Qed.

(** With known labels and a tweet of each candidate nothing raises. *)
Lemma fit_run docs :
  labels_known docs = true ->
  (0 < class_count trump docs)%Z -> (0 < class_count hillary docs)%Z ->
  fit docs = ((train docs).1, Ok (trained_model (train docs).1)).
Proof.
  intros Hk Ht Hh. unfold fit. pose proof (train_run docs Hk) as E.
  destruct (train_ok_inv _ _ E) as (_ & Hg & T).
  rewrite E at 2. simpl.
  rewrite derive_word_probabilities_run by done. simpl.
  pose proof (T trump) as Tt. pose proof (T hillary) as Th. simpl in Tt, Th.
  rewrite compute_log_priors_run; [done|lia..].
Qed.

Lemma fit_inv docs g m :
  fit docs = (g, Ok m) ->
  train docs = (g, Ok tt) /\ m = trained_model g /\ tables_ok g /\
  labels_known docs = true /\
  (0 < class_count trump docs)%Z /\ (0 < class_count hillary docs)%Z /\
  forall c, pc_get c (total_tweet_count g) = class_count c docs.
Proof.
  unfold fit. destruct (train docs) as [g' [[]|e]] eqn:E; simpl; [|done].
  intros [= -> Em]. destruct (train_ok_inv _ _ E) as (Hk & Hg & T).
  rewrite derive_word_probabilities_run in Em by done. simpl in Em.
  destruct (compute_log_priors g) as [priors|e] eqn:Ep; [|done].
  destruct (compute_log_priors_inv g priors Hg Ep) as [Ht Hh].
  rewrite compute_log_priors_run in Ep by done.
  simpl in Em. injection Ep as <-. injection Em as <-.
  pose proof (T trump) as Tt. pose proof (T hillary) as Th. simpl in Tt, Th.
  repeat (split; [done || lia|]). done.
Qed.

(** A word of the vocabulary has a positive probability for both
    candidates. *)
Lemma trained_model_lookup g c w :
  tables_ok g -> is_Some (vocabulary g !! w) ->
  exists n, pc_get c (word_counts_per_candidate g) !! w = Some n /\
    (SMOOTHING <= n)%Z /\
    pc_get c (word_probabilities_per_candidate (trained_model g)) !! w
    = Some (word_probability (pc_get c (total_tweet_count g)) n) /\
    (0 < word_probability (pc_get c (total_tweet_count g)) n)%R.
Proof.
  intros (H1 & H2 & H3) Hw. destruct (H1 c w Hw) as [n Hn]. exists n.
  split; [done|]. split; [by apply (H2 c w)|]. split.
  - destruct c; simpl in *; by rewrite lookup_fmap, Hn.
  - apply word_probability_pos; [apply H3|by apply (H2 c w)].
Qed.

End RunFacts.

(** ** Classification *)

Section ClassifyFacts.
Local Open Scope R_scope.

(** A token outside the vocabulary leaves both accumulators alone. *)
Lemma score_token_oov m acc t :
  vocabulary (tables m) !! t = None -> score_token m acc t = Ok acc.
Proof.
  intros Ht. unfold score_token. case_decide as Hs; [|done].
  rewrite Ht in Hs. by destruct Hs.
Qed.

Lemma logSum_oov m c t tokens :
  vocabulary (tables m) !! t = None ->
  Spec.logSum m c (t :: tokens) = Spec.logSum m c tokens.
Proof.
  intros Ht. unfold Spec.logSum, Spec.in_vocabulary. simpl.
  rewrite bool_decide_eq_false_2; [done|]. rewrite Ht. by intros [].
Qed.

Lemma logSum_known m c t tokens :
  is_Some (vocabulary (tables m) !! t) ->
  Spec.logSum m c (t :: tokens)
  = ln (Spec.WordProbability m c t) + Spec.logSum m c tokens.
Proof.
  intros Ht. unfold Spec.logSum, Spec.in_vocabulary. simpl.
  by rewrite bool_decide_eq_true_2.
Qed.

(** A token of the vocabulary: both lookups and both logarithms succeed. *)
Lemma score_token_known g acc t :
  tables_ok g -> is_Some (vocabulary g !! t) ->
  score_token (trained_model g) acc t
  = Ok (acc.1 + ln (Spec.WordProbability (trained_model g) trump t),
        acc.2 + ln (Spec.WordProbability (trained_model g) hillary t)).
Proof.
  intros Hg Ht.
  destruct (trained_model_lookup g trump t Hg Ht) as (nt & _ & _ & Et & Pt).
  destruct (trained_model_lookup g hillary t Hg Ht) as (nh & _ & _ & Eh & Ph).
  unfold score_token, Spec.WordProbability, get_item.
  rewrite decide_True by done. simpl in Et, Eh |- *.
  rewrite Et, Eh. simpl. rewrite !py_log_run by done. done.
Qed.

Lemma score_tokens_run g acc tokens :
  tables_ok g ->
  score_tokens (trained_model g) acc tokens
  = Ok (acc.1 + Spec.logSum (trained_model g) trump tokens,
        acc.2 + Spec.logSum (trained_model g) hillary tokens).
Proof.
  intros Hg. revert acc. induction tokens as [|t tokens IH]; intros [T H].
  - unfold Spec.logSum. simpl. f_equal. f_equal; lra.
  - simpl score_tokens. destruct (vocabulary g !! t) as [v|] eqn:Ht.
    + assert (is_Some (vocabulary g !! t)) as Hs by (by rewrite Ht).
      rewrite (score_token_known g _ t Hg Hs). simpl.
      rewrite IH. rewrite !logSum_known by done. simpl. f_equal. f_equal; lra.
    + rewrite score_token_oov by done. simpl.
      rewrite IH. by rewrite !logSum_oov by done.
Qed.

(** Subtracting the shared denominator from both numerators does not
    change which one is larger. *)
Lemma compare_posteriors_numerators lt lh T H :
  compare_posteriors lt lh T H
  = if Rge_dec (lt + T) (lh + H) then trump else hillary.
Proof.
  unfold compare_posteriors.
  destruct (Rge_dec _ _) as [Hp|Hp]; destruct (Rge_dec _ _) as [Hn|Hn];
    try done; exfalso; lra.
Qed.

Lemma predict_tokens_run g tokens :
  tables_ok g ->
  predict_tokens (trained_model g) tokens
  = Ok (Spec.argmax (fun c => Spec.logScore (trained_model g) c tokens)).
Proof.
  intros Hg. unfold predict_tokens.
  rewrite score_tokens_run by done. simpl.
  rewrite compare_posteriors_numerators, !Rplus_0_l. done.
Qed.

(** The priors are ordered as the tweet counts are. *)
Lemma log_prior_order g :
  (0 < of_trump (total_tweet_count g))%Z ->
  (0 < of_hillary (total_tweet_count g))%Z ->
  of_trump (log_prior (trained_model g))
    >= of_hillary (log_prior (trained_model g))
  <-> (of_hillary (total_tweet_count g) <= of_trump (total_tweet_count g))%Z.
Proof.
  intros Ht Hh. simpl. unfold sum_values.
  pose proof (IZR_pos _ Ht) as Pt. pose proof (IZR_pos _ Hh) as Ph.
  set (nt := of_trump (total_tweet_count g)) in *.
  set (nh := of_hillary (total_tweet_count g)) in *.
  assert (0 < / (IZR nt + IZR nh)) as Pi by (apply Rinv_0_lt_compat; lra).
  assert (0 < IZR nt / (IZR nt + IZR nh)) as Qt by (apply Rdiv_lt_0_compat; lra).
  assert (0 < IZR nh / (IZR nt + IZR nh)) as Qh by (apply Rdiv_lt_0_compat; lra).
  split.
  - intros Hge. destruct (Z_le_gt_dec nh nt) as [|Hgt]; [done|].
    exfalso. assert (IZR nt < IZR nh) as Hlt by (apply IZR_lt; lia).
    assert (IZR nt / (IZR nt + IZR nh) < IZR nh / (IZR nt + IZR nh)) as Hd.
    { unfold Rdiv. by apply Rmult_lt_compat_r. }
    pose proof (ln_increasing _ _ Qt Hd). lra.
  - intros Hle. apply IZR_le in Hle. destruct Hle as [Hlt|Heq].
    + assert (IZR nh / (IZR nt + IZR nh) < IZR nt / (IZR nt + IZR nh)) as Hd.
      { unfold Rdiv. by apply Rmult_lt_compat_r. }
      pose proof (ln_increasing _ _ Qh Hd). lra.
    + rewrite Heq. lra.
Qed.

End ClassifyFacts.

(** ** Binary64 arithmetic

    Facts about the operations of the floats, from their specification:
    rounding a number never gives a NaN, so sums and differences of finite
    numbers are numbers, and a number compares equal to itself. *)

Section FloatFacts.

Lemma iter_pos_invariant {A} (P : A -> Prop) (f : A -> A) :
  (forall x, P x -> P (f x)) ->
  forall (n : positive) (x : A), P x -> P (SpecFloat.iter_pos f n x).
Proof.
  intros Hf n. induction n as [n IH|n IH|]; simpl; intros x Hx; auto.
Qed.

Lemma shr_1_nonneg mrs : (0 <= shr_m mrs)%Z -> (0 <= shr_m (shr_1 mrs))%Z.
Proof. destruct mrs as [[|[p|p|]|[p|p|]] r s]; simpl; lia. Qed.

Lemma shr_nonneg mrs e n :
  (0 <= shr_m mrs)%Z -> (0 <= shr_m (shr mrs e n).1)%Z.
Proof.
  intros H. destruct n as [|p|p]; simpl; [done| |done].
  apply (iter_pos_invariant (fun x => (0 <= shr_m x)%Z)); [|done].
  apply shr_1_nonneg.
Qed.

Lemma shr_fexp_nonneg prec emax m e l :
  (0 <= m)%Z -> (0 <= shr_m (shr_fexp prec emax m e l).1)%Z.
Proof.
  intros H. unfold shr_fexp. apply shr_nonneg. by destruct l as [|[]].
Qed.

Lemma round_nearest_even_nonneg m l :
  (0 <= m)%Z -> (0 <= round_nearest_even m l)%Z.
Proof.
  intros H. destruct l as [|[]]; simpl; try destruct (Z.even m); lia.
Qed.

Lemma binary_round_aux_not_nan prec emax sx mx ex lx :
  (0 <= mx)%Z -> binary_round_aux prec emax sx mx ex lx <> S754_nan.
Proof.
  intros H. unfold binary_round_aux.
  pose proof (shr_fexp_nonneg prec emax mx ex lx H) as H1.
  destruct (shr_fexp prec emax mx ex lx) as [mrs' e']. simpl in H1.
  pose proof (shr_fexp_nonneg prec emax _ e' loc_Exact
                (round_nearest_even_nonneg _ (loc_of_shr_record mrs') H1))
    as H2.
  destruct (shr_fexp prec emax _ e' loc_Exact) as [mrs'' e'']. simpl in H2.
  destruct (shr_m mrs'') as [|p|p]; [done| |lia].
  by destruct (Z.leb _ _).
Qed.

Lemma binary_normalize_not_nan prec emax m e szero :
  binary_normalize prec emax m e szero <> S754_nan.
Proof.
  destruct m as [|p|p]; simpl; [done| |]; unfold binary_round;
    destruct (shl_align _ _ _) as [mz ez]; by apply binary_round_aux_not_nan.
Qed.

Lemma SFadd_not_nan prec emax x y :
  sf_finite x = true -> sf_finite y = true -> SFadd prec emax x y <> S754_nan.
Proof.
  destruct x as [[]| | |], y as [[]| | |]; simpl; try done;
    intros _ _; apply binary_normalize_not_nan.
Qed.

Lemma SFsub_not_nan prec emax x y :
  sf_finite x = true -> y <> S754_nan -> SFsub prec emax x y <> S754_nan.
Proof.
  destruct x as [[]| | |], y as [[]| | |]; simpl; try done;
    intros _ _; apply binary_normalize_not_nan.
Qed.

Lemma SFcompare_refl x : x <> S754_nan -> SFcompare x x = Some Eq.
Proof.
  destruct x as [s|[]| |[] m e]; simpl; try done;
    by rewrite Z.compare_refl, Pos.compare_cont_refl.
Qed.

Lemma SFeqb_finite s m e s' m' e' :
  SFeqb (S754_finite s m e) (S754_finite s' m' e') = true ->
  S754_finite s m e = S754_finite s' m' e'.
Proof.
  unfold SFeqb. simpl.
  destruct s, s'; try done;
    (destruct (Z.compare_spec e e') as [->| |]; [|done|done]);
    change (Pos.compare_cont Eq m m') with (Pos.compare m m');
    (destruct (Pos.compare_spec m m') as [->| |]; [done| |]); done.
Qed.

Lemma is_finite_spec x : is_finite x = true -> sf_finite (Prim2SF x) = true.
Proof.
  unfold is_finite, is_nan, is_infinity. rewrite !FloatAxioms.eqb_spec, FloatAxioms.abs_spec.
  change (Prim2SF infinity) with (S754_infinity false).
  by destruct (Prim2SF x) as [|[]| |].
Qed.

(** Two equal numerators: the two differences from the shared denominator
    compare as [>=]. *)
Lemma tie_comparison x y :
  (x =? y)%float = true -> is_finite x = true ->
  ((y - (y + x)) <=? (x - (y + x)))%float = true.
Proof.
  intros He Hf. apply is_finite_spec in Hf. rewrite FloatAxioms.eqb_spec in He.
  destruct (Prim2SF x) as [s|s| |s m e] eqn:Ex; try done;
    destruct (Prim2SF y) as [s'|s'| |s' m' e'] eqn:Ey;
    try (by (unfold SFeqb in He; simpl in He; try done;
             destruct s; try done; destruct s')).
  - rewrite <- (SF2Prim_Prim2SF x), <- (SF2Prim_Prim2SF y), Ex, Ey.
    destruct s, s'; vm_compute; reflexivity.
  - apply SFeqb_finite in He.
    assert (x = y) as -> by (apply Prim2SF_inj; congruence).
    rewrite FloatAxioms.leb_spec. unfold SFleb. rewrite SFcompare_refl; [done|].
    rewrite FloatAxioms.sub_spec, FloatAxioms.add_spec.
    apply SFsub_not_nan; [by rewrite Ey|].
    apply SFadd_not_nan; by rewrite Ey.
Qed.

Lemma compare_posteriors_b64_tie lt lh T H :
  (lt + T =? lh + H)%float = true -> is_finite (lt + T)%float = true ->
  compare_posteriors_b64 lt lh T H = trump.
Proof.
  intros He Hf. unfold compare_posteriors_b64.
  by rewrite (tie_comparison _ _ He Hf).
Qed.

(** Without finiteness the tie goes the other way: the differences of
    infinite numerators are NaN, and [>=] fails on a NaN. *)
Lemma compare_posteriors_b64_infinite_tie :
  compare_posteriors_b64 0 0 neg_infinity neg_infinity = hillary.
Proof. vm_compute. reflexivity. Qed.

Lemma predict_b64_tie math_log m text :
  finite_tie math_log m text -> predict_b64 math_log m text = Ok trump.
Proof.
  intros (nt & nh & Hn & He & Hf). unfold predict_b64, predict_tokens_b64.
  unfold numerators_b64 in Hn.
  destruct (score_tokens_b64 math_log m _ (tokenize text)) as [[T H]|e];
    [|done].
  simpl in *. injection Hn as <- <-.
  by rewrite compare_posteriors_b64_tie.
Qed.

(** The table function returns the values of the table. *)
Lemma table_log_agrees : agrees_with_log_table table_log.
Proof. repeat constructor. Qed.

End FloatFacts.

(** * The claims *)

(** ** Tokenizer *)

Example tokenize_sample_tweet :
  tokenize "I am growing the Republican Party tremendously - just look at the numbers, way up! Democrats numbers are significantly down from years past."
  = ["i"; "am"; "growing"; "the"; "republican"; "party"; "tremendously";
     "just"; "look"; "at"; "the"; "numbers"; "way"; "up"; "democrats";
     "numbers"; "are"; "significantly"; "down"; "from"; "years"; "past"].
Proof. vm_compute. reflexivity. Qed.

Example re_split_W_edges :
  re_split_W " a  b " = [""; "a"; "b"; ""] /\ re_split_W "" = [""].
Proof. split; reflexivity. Qed.

(** C3, as stated, fails: the two hyphens of ["a--b"] are deleted by
    [remove_punctuation] before the line is split, so the letters end up in
    one token and the result is not [["a"; "b"]]. *)
Lemma tokenize_hyphens_not_split : tokenize "a--b" <> ["a"; "b"].
Proof. vm_compute. discriminate. Qed.

(** C3, amended: [tokenize "a--b"] is the one-token sequence [["ab"]];
    [tokenize ""] is empty and [tokenize "Hello, World!"] is
    [["hello"; "world"]]. *)
Theorem tokenize_examples :
  tokenize "a--b" = ["ab"] /\
  tokenize "" = [] /\
  tokenize "Hello, World!" = ["hello"; "world"].
Proof. repeat split; vm_compute; reflexivity. Qed.

(** C9: tokenizing the tokens of any string joined by single spaces gives
    the same tokens again. *)
Theorem tokenize_idempotent (s : string) :
  tokenize (join " " (tokenize s)) = tokenize s.
Proof. apply tokenize_join, tokenize_tokens. Qed.

(** ** Training *)

Lemma train_sample_docs : train sample_docs = ((train sample_docs).1, Ok tt).
Proof. by apply train_run. Qed.

Lemma fit_sample_docs :
  fit sample_docs = ((train sample_docs).1, Ok sample_model).
Proof. by apply fit_run. Qed.

(** C2: once the training loop has run to its end, every word of the
    vocabulary has, for each candidate, a count of at least [SMOOTHING]
    (which is 1), and the probability derived from it is positive. *)
Theorem smoothing_invariant docs g c t :
  train docs = (g, Ok tt) -> is_Some (vocabulary g !! t) ->
  SMOOTHING = 1%Z /\
  exists n probs p,
    pc_get c (word_counts_per_candidate g) !! t = Some n /\
    (SMOOTHING <= n)%Z /\
    derive_word_probabilities g = Ok probs /\
    pc_get c probs !! t = Some p /\ (0 < p)%R.
Proof.
  intros E Ht. split; [done|].
  destruct (train_ok_inv docs g E) as (_ & Hg & _).
  destruct (trained_model_lookup g c t Hg Ht) as (n & Hn & Hge & Hp & Hpos).
  exists n, (word_probabilities_per_candidate (trained_model g)),
    (word_probability (pc_get c (total_tweet_count g)) n).
  by rewrite derive_word_probabilities_run.
Qed.

Lemma smoothing_invariant_witness :
  SMOOTHING = 1%Z /\
  exists n probs p,
    pc_get trump (word_counts_per_candidate (train sample_docs).1) !! "cats"
    = Some n /\
    (SMOOTHING <= n)%Z /\
    derive_word_probabilities (train sample_docs).1 = Ok probs /\
    pc_get trump probs !! "cats" = Some p /\ (0 < p)%R.
Proof.
  apply (smoothing_invariant sample_docs (train sample_docs).1 trump "cats").
  - exact train_sample_docs.
  - exists 4%Z. vm_compute. reflexivity.
Defined.

(** C5: once the training loop has processed all documents, the derived
    probability of a vocabulary word for a candidate is its count divided
    by the candidate's tweet count plus [numClasses * SMOOTHING], and that
    divisor is the tweet count plus 2. *)
Theorem word_probability_formula docs g c t :
  train docs = (g, Ok tt) -> is_Some (vocabulary g !! t) ->
  exists n probs,
    pc_get c (word_counts_per_candidate g) !! t = Some n /\
    derive_word_probabilities g = Ok probs /\
    pc_get c probs !! t
    = Some (IZR n / (IZR (pc_get c (total_tweet_count g))
                     + IZR (numClasses * SMOOTHING)))%R /\
    (IZR (pc_get c (total_tweet_count g)) + IZR (numClasses * SMOOTHING)
     = IZR (pc_get c (total_tweet_count g)) + 2)%R.
Proof.
  intros E Ht.
  destruct (train_ok_inv docs g E) as (_ & Hg & _).
  destruct (trained_model_lookup g c t Hg Ht) as (n & Hn & _ & Hp & _).
  exists n, (word_probabilities_per_candidate (trained_model g)).
  by rewrite derive_word_probabilities_run.
Qed.

Lemma word_probability_formula_witness :
  exists n probs,
    pc_get hillary (word_counts_per_candidate (train sample_docs).1) !! "love"
    = Some n /\
    derive_word_probabilities (train sample_docs).1 = Ok probs /\
    pc_get hillary probs !! "love"
    = Some (IZR n / (IZR (pc_get hillary (total_tweet_count (train sample_docs).1))
                     + IZR (numClasses * SMOOTHING)))%R /\
    (IZR (pc_get hillary (total_tweet_count (train sample_docs).1))
       + IZR (numClasses * SMOOTHING)
     = IZR (pc_get hillary (total_tweet_count (train sample_docs).1)) + 2)%R.
Proof.
  apply (word_probability_formula sample_docs (train sample_docs).1 hillary "love").
  - exact train_sample_docs.
  - exists 4%Z. vm_compute. reflexivity.
Defined.

(** ** Classification *)

Local Ltac rewrite_logs :=
  repeat match goal with
         | H : _ = _ |- _ => rewrite !H; clear H
         | H : _ = _ |- _ => clear H
         end.

(** C1, at the corpus [rounding_docs] and the tweet [rounding_tweet], with
    a [math.log] that returns the values of the C library: the run gives a
    model; the two numerators that the program computes are [-16.0] for
    [trump] and [-15.999999999999998] for [hillary], so comparing them
    selects [hillary]; their differences from the shared denominator
    [-32.0] both round to [16.0], and the program predicts [trump]. *)
Theorem posteriors_differ_from_numerators math_log :
  agrees_with_log_table math_log ->
  exists m,
    (fit_b64 math_log rounding_docs).2 = Ok m /\
    numerators_b64 math_log m (tokenize rounding_tweet)
    = Ok ((-0x1p+4)%float, (-0x1.fffffffffffffp+3)%float) /\
    ((-0x1p+4) <? (-0x1.fffffffffffffp+3))%float = true /\
    compare_numerators_b64 (-0x1p+4) (-0x1.fffffffffffffp+3) = hillary /\
    predict_b64 math_log m rounding_tweet = Ok trump.
Proof.
  intros Hlog. unfold agrees_with_log_table, log_table in Hlog.
  repeat (apply Forall_cons in Hlog as [? Hlog]). simpl in *.
  let v := eval vm_compute in (fit_b64 math_log rounding_docs).2 in
  match v with Ok ?m => exists m end.
  split; [vm_compute; reflexivity|].
  split; [|split; [vm_compute; reflexivity|split; [vm_compute; reflexivity|]]].
  - vm_compute. rewrite_logs. vm_compute. reflexivity.
  - vm_compute. rewrite_logs. vm_compute. reflexivity.
Qed.

Lemma posteriors_differ_from_numerators_witness :
  agrees_with_log_table table_log /\
  exists m,
    (fit_b64 table_log rounding_docs).2 = Ok m /\
    numerators_b64 table_log m (tokenize rounding_tweet)
    = Ok ((-0x1p+4)%float, (-0x1.fffffffffffffp+3)%float) /\
    ((-0x1p+4) <? (-0x1.fffffffffffffp+3))%float = true /\
    compare_numerators_b64 (-0x1p+4) (-0x1.fffffffffffffp+3) = hillary /\
    predict_b64 table_log m rounding_tweet = Ok trump.
Proof.
  split; [exact table_log_agrees|].
  exact (posteriors_differ_from_numerators table_log table_log_agrees).
Defined.

(** C4: a token outside the vocabulary leaves both scores unchanged and is
    no error; for a text whose tokens are all outside the vocabulary (an
    empty token sequence included) both sums stay zero and the predicted
    candidate is one with the largest tweet count. *)
Theorem oov_text_predicts_largest_prior docs g m text :
  fit docs = (g, Ok m) ->
  Forall (fun t => vocabulary g !! t = None) (tokenize text) ->
  (forall acc t, vocabulary g !! t = None -> score_token m acc t = Ok acc) /\
  score_tokens m (0%R, 0%R) (tokenize text) = Ok (0%R, 0%R) /\
  exists c,
    predict m text = Ok c /\
    forall c', (pc_get c' (total_tweet_count g)
                <= pc_get c (total_tweet_count g))%Z.
Proof.
  intros (_ & -> & Hg & _ & Ht & Hh & T)%fit_inv Hoov.
  rewrite <- (T trump) in Ht. rewrite <- (T hillary) in Hh. simpl in Ht, Hh.
  assert (forall c, Spec.logSum (trained_model g) c (tokenize text) = 0%R) as Hz.
  { intros c. induction Hoov as [|t tokens Hn _ IH]; [done|].
    by rewrite logSum_oov. }
  split; [|split].
  - intros acc t Hn. by apply score_token_oov.
  - rewrite score_tokens_run by done. rewrite !Hz. simpl.
    by rewrite Rplus_0_l.
  - unfold predict. rewrite predict_tokens_run by done.
    eexists; split; [reflexivity|].
    unfold Spec.argmax, Spec.logScore. rewrite !Hz, !Rplus_0_r. simpl pc_get.
    pose proof (log_prior_order g Ht Hh) as Ho.
    destruct (Rge_dec _ _) as [Hge|Hlt]; intros []; simpl; try lia.
    + by apply Ho.
    + destruct (Z_le_gt_dec (of_hillary (total_tweet_count g))
                            (of_trump (total_tweet_count g))) as [Hle|Hgt];
        [|lia].
      by apply Ho in Hle.
Qed.

Lemma oov_text_predicts_largest_prior_witness :
  (forall acc t, vocabulary (train sample_docs).1 !! t = None ->
                 score_token sample_model acc t = Ok acc) /\
  score_tokens sample_model (0%R, 0%R) (tokenize "zzzznonexistentword")
  = Ok (0%R, 0%R) /\
  exists c,
    predict sample_model "zzzznonexistentword" = Ok c /\
    forall c', (pc_get c' (total_tweet_count (train sample_docs).1)
                <= pc_get c (total_tweet_count (train sample_docs).1))%Z.
Proof.
  apply (oov_text_predicts_largest_prior sample_docs (train sample_docs).1 _
           "zzzznonexistentword" fit_sample_docs).
  change (tokenize "zzzznonexistentword") with ["zzzznonexistentword"].
  constructor; [|constructor]. vm_compute. reflexivity.
Defined.

(** C8: on every model, a trained one in particular, a text whose two
    computed log scores (the numerators of the comparison) are equal
    finite floats is given to [trump], the first candidate of the order
    fixed in the program; so two classifications of tying texts return the
    same candidate. *)
Theorem computed_tie_goes_to_trump math_log m text1 text2 :
  finite_tie math_log m text1 ->
  finite_tie math_log m text2 ->
  predict_b64 math_log m text1 = Ok trump /\
  predict_b64 math_log m text2 = Ok trump /\
  predict_b64 math_log m text1 = predict_b64 math_log m text2.
Proof.
  intros H1 H2. by rewrite !predict_b64_tie.
Qed.

Lemma computed_tie_goes_to_trump_witness :
  exists m,
    (fit_b64 table_log balanced_docs).2 = Ok m /\
    finite_tie table_log m "" /\
    finite_tie table_log m "build the wall" /\
    predict_b64 table_log m "" = Ok trump /\
    predict_b64 table_log m "build the wall" = Ok trump /\
    predict_b64 table_log m "" = predict_b64 table_log m "build the wall".
Proof.
  let v := eval vm_compute in (fit_b64 table_log balanced_docs).2 in
  match v with Ok ?m => exists m end.
  split; [vm_compute; reflexivity|].
  match goal with |- finite_tie ?l ?m ?t1 /\ finite_tie _ _ ?t2 /\ _ =>
    assert (finite_tie l m t1) as H1;
    [|assert (finite_tie l m t2) as H2;
      [|exact (conj H1 (conj H2 (computed_tie_goes_to_trump l m t1 t2 H1 H2)))]]
  end.
  - exists (-0x1.62e42fefa39efp-1)%float, (-0x1.62e42fefa39efp-1)%float.
    vm_compute. done.
  - let v := eval vm_compute in
      (numerators_b64 table_log
         (match (fit_b64 table_log balanced_docs).2 with
          | Ok m => m
          | Raise _ => Model_b64 initial_globals (PerCandidate ∅ ∅)
                         (PerCandidate 0%float 0%float)
          end) (tokenize "build the wall")) in
    match v with Ok (?a, ?b) => exists a, b end.
    vm_compute. done.
Defined.

(** C10: a corpus with known labels and at least one tweet of each
    candidate gives a model; on that model every lookup guarded by the
    vocabulary test finds a positive probability, each log prior is the
    logarithm of a positive prior, and classifying any text returns a
    candidate. *)
Theorem predict_never_fails docs :
  labels_known docs = true ->
  (0 < class_count trump docs)%Z -> (0 < class_count hillary docs)%Z ->
  exists g m,
    fit docs = (g, Ok m) /\
    (forall c t, is_Some (vocabulary (tables m) !! t) ->
       exists p, get_item (pc_get c (word_probabilities_per_candidate m)) t
                 = Ok p /\ (0 < p)%R /\ py_log p = Ok (ln p)) /\
    (forall c, exists prior,
       (0 < prior)%R /\ py_log prior = Ok (pc_get c (log_prior m))) /\
    forall text, exists c, predict m text = Ok c.
Proof.
  intros Hk Ht Hh. pose proof (fit_run docs Hk Ht Hh) as E.
  destruct (fit_inv _ _ _ E) as (_ & _ & Hg & _ & _ & _ & T).
  set (g := (train docs).1) in *.
  exists g, (trained_model g). split; [done|]. split; [|split].
  - intros c t Hs.
    destruct (trained_model_lookup g c t Hg Hs) as (n & _ & _ & Hp & Hpos).
    eexists. unfold get_item. rewrite Hp. split; [done|].
    split; [done|]. by apply py_log_run.
  - rewrite <- (T trump) in Ht. rewrite <- (T hillary) in Hh. simpl in Ht, Hh.
    apply IZR_pos in Ht, Hh.
    assert (0 < sum_values (total_tweet_count g))%R
      by (unfold sum_values; lra).
    intros []; eexists; (split; [|apply py_log_run]);
      simpl; apply Rdiv_lt_0_compat; done.
  - intros text. unfold predict. rewrite predict_tokens_run by done. by eexists.
Qed.

Lemma predict_never_fails_witness :
  exists g m,
    fit sample_docs = (g, Ok m) /\
    (forall c t, is_Some (vocabulary (tables m) !! t) ->
       exists p, get_item (pc_get c (word_probabilities_per_candidate m)) t
                 = Ok p /\ (0 < p)%R /\ py_log p = Ok (ln p)) /\
    (forall c, exists prior,
       (0 < prior)%R /\ py_log prior = Ok (pc_get c (log_prior m))) /\
    forall text, exists c, predict m text = Ok c.
Proof.
  apply (predict_never_fails sample_docs); vm_compute; reflexivity.
Defined.

(** ** Failures *)

Lemma fit_no_docs : fit [] = (initial_globals, Raise ZeroDivisionError).
Proof.
  unfold fit. change (train []) with (initial_globals, Ok tt). simpl.
  rewrite derive_word_probabilities_run by apply initial_globals_ok. simpl.
  by rewrite compute_log_priors_no_tweet.
Qed.

Lemma class_count_all_zero docs :
  labels_known docs = true ->
  class_count trump docs = 0%Z -> class_count hillary docs = 0%Z -> docs = [].
Proof.
  destruct docs as [|[tweet label] docs]; [done|]. simpl.
  intros [Hl _]%andb_true_iff. apply bool_decide_eq_true in Hl as [c Hl].
  simpl in Hl. rewrite !class_count_cons, Hl.
  pose proof (class_count_nonneg trump docs).
  pose proof (class_count_nonneg hillary docs).
  destruct c; repeat case_decide; simplify_eq; lia.
Qed.

(** C6, as stated, fails: on the empty training sequence the training loop
    runs to its end, and the exception that the run then raises is a
    [ZeroDivisionError], not an [EmptyTrainingSetError]. *)
Lemma no_EmptyTrainingSetError_on_empty_corpus :
  train [] = (initial_globals, Ok tt) /\
  (fit []).2 = Raise ZeroDivisionError /\
  ~ exists e, (fit []).2 = Raise e /\ exn_name e = "EmptyTrainingSetError".
Proof.
  split; [done|]. rewrite fit_no_docs. split; [done|].
  intros (e & [= <-] & Hname). discriminate Hname.
Qed.

(** C6, amended: with known labels and a candidate that has no tweet, the
    training loop itself runs to its end and the computation of the priors
    fails: with [ZeroDivisionError] when the training sequence is empty,
    otherwise with [ValueError] from the logarithm of a zero prior; no
    other failure occurs, and the count tables are those of the completed
    loop. *)
Theorem fit_fails_without_tweets_of_a_class docs :
  labels_known docs = true ->
  (class_count trump docs = 0 \/ class_count hillary docs = 0)%Z ->
  train docs = ((fit docs).1, Ok tt) /\
  (fit docs).2
  = Raise (if decide (docs = []) then ZeroDivisionError else ValueError).
Proof.
  intros Hk Hz. split; [by apply train_run|].
  case_decide as Hd; [subst; by rewrite fit_no_docs|].
  pose proof (train_run docs Hk) as E.
  destruct (train_ok_inv _ _ E) as (_ & Hg & T).
  assert ((train docs).2 = Ok tt) as E2 by (by rewrite E).
  unfold fit. simpl. rewrite E2. simpl.
  rewrite derive_word_probabilities_run by done. simpl.
  assert (exists c, class_count c docs = 0%Z /\ (0 < class_count (other c) docs)%Z)
    as (c & Hc & Ho).
  { pose proof (class_count_nonneg trump docs).
    pose proof (class_count_nonneg hillary docs).
    destruct Hz as [Hz|Hz]; [exists trump|exists hillary]; (split; [done|]);
      simpl;
      [destruct (decide (class_count hillary docs = 0%Z))
      |destruct (decide (class_count trump docs = 0%Z))];
      try lia; destruct Hd; by apply class_count_all_zero. }
  rewrite (compute_log_priors_one_sided _ c); [done|..]; by rewrite T.
Qed.

Lemma fit_fails_without_tweets_of_a_class_witness :
  train one_sided_docs = ((fit one_sided_docs).1, Ok tt) /\
  (fit one_sided_docs).2
  = Raise (if decide (one_sided_docs = []) then ZeroDivisionError
           else ValueError).
Proof.
  apply (fit_fails_without_tweets_of_a_class one_sided_docs).
  - vm_compute. reflexivity.
  - left. vm_compute. reflexivity.
Defined.

Lemma fit_unterminated_docs :
  fit unterminated_docs = ((train unterminated_docs).1, Raise KeyError).
Proof.
  unfold fit. f_equal.
Qed.

(** C7, as stated, fails: the run over a label file whose second label
    lacks its newline raises [KeyError] and keeps what the first document
    wrote: the tables are not those of an untrained model. *)
Lemma failed_fit_keeps_first_document :
  (fit unterminated_docs).2 = Raise KeyError /\
  vocabulary (fit unterminated_docs).1 !! "a" = Some 3%Z /\
  of_hillary (total_tweet_count (fit unterminated_docs).1) = 1%Z /\
  (fit unterminated_docs).1 <> initial_globals.
Proof.
  rewrite fit_unterminated_docs. simpl.
  split; [done|]. split; [vm_compute; reflexivity|].
  split; [vm_compute; reflexivity|].
  intros E. apply (f_equal (fun g => vocabulary g !! "a")) in E.
  vm_compute in E. discriminate E.
Qed.

(** C7, amended: a failed run rolls nothing back. The count tables it
    leaves are those of a completed training loop over the documents that
    precede the failure: all of them when the priors fail, and those before
    the first document whose label is not a key of [LABEL_MAP] when the
    loop raises [KeyError]. *)
Theorem failed_fit_keeps_counts docs g e :
  fit docs = (g, Raise e) ->
  exists pre post,
    docs = (pre ++ post)%list /\ train pre = (g, Ok tt) /\
    ((e = KeyError /\
      exists bad rest, post = bad :: rest /\ LABEL_MAP !! bad.2 = None) \/
     (e <> KeyError /\ post = [])).
Proof.
  unfold fit. destruct (train docs) as [g' [[]|e']] eqn:E; simpl.
  - intros [= -> Em]. exists docs, []. rewrite app_nil_r.
    split; [done|]. split; [done|]. right. split; [|done].
    destruct (train_ok_inv _ _ E) as (_ & Hg & _).
    rewrite derive_word_probabilities_run in Em by done. simpl in Em.
    destruct (compute_log_priors g) as [priors|e'] eqn:Ep; [done|].
    injection Em as <-. by apply (compute_log_priors_raise g).
  - intros [= -> ->].
    destruct (train_loop_raise docs _ _ _ initial_globals_ok E)
      as (pre & bad & post & -> & _ & Hb & -> & Ep).
    exists pre, (bad :: post). split; [done|]. split; [done|].
    left. split; [done|]. by exists bad, post.
Qed.

Lemma failed_fit_keeps_counts_witness :
  exists pre post,
    unterminated_docs = (pre ++ post)%list /\
    train pre = ((train unterminated_docs).1, Ok tt) /\
    ((KeyError = KeyError /\
      exists bad rest, post = bad :: rest /\ LABEL_MAP !! bad.2 = None) \/
     (KeyError <> KeyError /\ post = [])).
Proof.
  exact (failed_fit_keeps_counts unterminated_docs _ KeyError
           fit_unterminated_docs).
Defined.

(** ** The scenario of the specification *)

Lemma sample_tables_ok : tables_ok (train sample_docs).1.
Proof. apply (train_ok_inv sample_docs), train_sample_docs. Qed.

Lemma sample_total_tweet_count :
  total_tweet_count (train sample_docs).1 = PerCandidate 2%Z 1%Z.
Proof. vm_compute. reflexivity. Qed.

Lemma sample_word_probability c t n :
  pc_get c (word_counts_per_candidate (train sample_docs).1) !! t = Some n ->
  Spec.WordProbability sample_model c t
  = word_probability (pc_get c (PerCandidate 2%Z 1%Z)) n.
Proof.
  intros Hn. unfold Spec.WordProbability, sample_model, trained_model.
  rewrite <- sample_total_tweet_count.
  destruct c; simpl in *; by rewrite lookup_fmap, Hn.
Qed.

Lemma ln_product a b c d :
  (0 < a -> 0 < b -> 0 < c -> 0 < d ->
   ln a + (ln b + (ln c + ln d)) = ln (a * (b * (c * d))))%R.
Proof.
  intros Ha Hb Hc Hd.
  rewrite !ln_mult; try done; repeat apply Rmult_lt_0_compat; done.
Qed.

(** Trained on "I love cats" (trump), "I love dogs" (hillary) and
    "cats are great" (trump), the classifier gives "I love cats" to
    [trump]: the products of prior and word probabilities are 1/8 against
    4/81. *)
Example predict_sample_i_love_cats :
  predict sample_model "I love cats" = Ok trump.
Proof.
  unfold predict, sample_model.
  rewrite predict_tokens_run by apply sample_tables_ok. fold sample_model.
  f_equal. unfold Spec.argmax.
  destruct (Rge_dec _ _) as [|Hn]; [done|]. exfalso. apply Hn. clear Hn.
  change (tokenize "I love cats") with ["i"; "love"; "cats"].
  unfold Spec.logScore.
  rewrite !logSum_known by (vm_compute; eexists; reflexivity).
  unfold Spec.logSum at 1 2. simpl foldr.
  rewrite (sample_word_probability trump "i" 2),
    (sample_word_probability trump "love" 2),
    (sample_word_probability trump "cats" 3),
    (sample_word_probability hillary "i" 2),
    (sample_word_probability hillary "love" 2),
    (sample_word_probability hillary "cats" 1)
    by (vm_compute; reflexivity).
  unfold sample_model, trained_model, log_prior. simpl pc_get.
  rewrite sample_total_tweet_count.
  unfold sum_values, word_probability. simpl pc_get.
  unfold of_trump, of_hillary.
  rewrite !Rplus_0_r, !ln_product by lra.
  apply Rle_ge, Rlt_le, ln_increasing; lra.
Qed.

(** A word never seen in training leaves the decision to the priors:
    two tweets of [trump] against one of [hillary]. *)
Example predict_sample_unknown_word :
  predict sample_model "zzzznonexistentword" = Ok trump.
Proof.
  unfold predict, sample_model.
  rewrite predict_tokens_run by apply sample_tables_ok. fold sample_model.
  f_equal. unfold Spec.argmax.
  destruct (Rge_dec _ _) as [|Hn]; [done|]. exfalso. apply Hn. clear Hn.
  change (tokenize "zzzznonexistentword") with ["zzzznonexistentword"].
  unfold Spec.logScore.
  rewrite !logSum_oov by (vm_compute; reflexivity).
  unfold Spec.logSum. simpl foldr.
  unfold sample_model, trained_model, log_prior. simpl pc_get.
  rewrite sample_total_tweet_count.
  unfold sum_values, of_trump, of_hillary.
  rewrite !Rplus_0_r. apply Rle_ge, Rlt_le, ln_increasing; lra.
Qed.

(** * Further properties *)

(** ** The tokenizer *)

Section TokenizerMore.
Import Chars.

Local Ltac by_enumeration c :=
  destruct c as [[] [] [] [] [] [] [] []]; vm_compute; intuition congruence.

Lemma token_char_ranges c :
  is_token_char c = true -> between 97 122 c || between 48 57 c = true.
Proof. by_enumeration c. Qed.

Lemma space_not_word c : is_space c = true -> is_word c = false.
Proof. by_enumeration c. Qed.

Lemma lower_char_punctuation c :
  is_punctuation (lower_char c) = is_punctuation c.
Proof. by_enumeration c. Qed.

Lemma lower_char_idem c : lower_char (lower_char c) = lower_char c.
Proof. by_enumeration c. Qed.

Lemma lower_char_word c : is_word (lower_char c) = is_word c.
Proof. by_enumeration c. Qed.

Lemma non_word_lower c : is_word c = false -> lower_char c = c.
Proof. by_enumeration c. Qed.

Lemma str_filter_app p s t :
  str_filter p (s +:+ t) = str_filter p s +:+ str_filter p t.
Proof.
  induction s as [|c s IH]; [done|].
  rewrite str_app_cons. simpl. destruct (p c); [|done].
  by rewrite str_app_cons, IH.
Qed.

Lemma str_map_app f s t : str_map f (s +:+ t) = str_map f s +:+ str_map f t.
Proof.
  induction s as [|c s IH]; [done|].
  rewrite str_app_cons. simpl. by rewrite str_app_cons, IH.
Qed.

Lemma str_filter_none p s :
  str_all (fun c => negb (p c)) s = true -> str_filter p s = "".
Proof.
  induction s as [|c s IH]; simpl; [done|].
  intros [Hc Hs]%andb_true_iff. apply negb_true_iff in Hc. by rewrite Hc, IH.
Qed.

Lemma str_filter_map p f s :
  (forall c, p (f c) = p c) ->
  str_filter p (str_map f s) = str_map f (str_filter p s).
Proof.
  intros Hp. induction s as [|c s IH]; simpl; [done|].
  rewrite Hp. destruct (p c); simpl; by rewrite IH.
Qed.

Lemma str_map_idem f s :
  (forall c, f (f c) = f c) -> str_map f (str_map f s) = str_map f s.
Proof.
  intros Hf. induction s as [|c s IH]; simpl; [done|]. by rewrite Hf, IH.
Qed.

Lemma rev_is_empty s : is_empty (String.rev s) = is_empty s.
Proof.
  destruct s as [|c s]; [done|]. unfold String.rev. simpl.
  rewrite rev_app_app. by destruct (String.rev s).
Qed.

Lemma tokens_from_nil in_sep piece :
  tokens_from in_sep piece "" = if is_empty piece then [] else [String.rev piece].
Proof.
  unfold tokens_from. simpl. rewrite rev_is_empty. by destruct (is_empty piece).
Qed.

Lemma tokens_from_word in_sep piece c s :
  is_word c = true ->
  tokens_from in_sep piece (String c s) = tokens_from false (String c piece) s.
Proof. intros Hc. unfold tokens_from. simpl. by rewrite Hc. Qed.

Lemma tokens_from_sep piece c s :
  is_word c = false ->
  tokens_from false piece (String c s)
  = (tokens_from false piece "" ++ tokens_from true "" s)%list.
Proof.
  intros Hc. unfold tokens_from. simpl. rewrite Hc. simpl.
  by destruct (is_empty (String.rev piece)).
Qed.

Lemma tokens_from_sep_run piece c s :
  is_word c = false ->
  tokens_from true piece (String c s) = tokens_from true piece s.
Proof. intros Hc. unfold tokens_from. simpl. by rewrite Hc. Qed.

(** After a separator the state of the splitter is that of a fresh start. *)
Lemma tokens_from_fresh s : tokens_from true "" s = tokens_from false "" s.
Proof.
  destruct s as [|c s]; [done|]. destruct (is_word c) eqn:Hc.
  - by rewrite !tokens_from_word.
  - by rewrite tokens_from_sep, tokens_from_sep_run.
Qed.

Lemma tokens_from_lstrip s :
  tokens_from false "" (lstrip s) = tokens_from false "" s.
Proof.
  induction s as [|c s IH]; [done|]. simpl.
  destruct (is_space c) eqn:Hc; [|done].
  rewrite tokens_from_sep by (by apply space_not_word).
  by rewrite tokens_from_fresh.
Qed.

Lemma tokens_from_blank in_sep piece s :
  rstrip s = "" -> tokens_from in_sep piece s = tokens_from in_sep piece "".
Proof.
  revert in_sep piece. induction s as [|c s IH]; intros in_sep piece; [done|].
  simpl. destruct (is_space c) eqn:Hc; [|done].
  destruct (is_empty (rstrip s)) eqn:He; [|done]. intros _.
  assert (rstrip s = "") as Hs by (by destruct (rstrip s)).
  apply space_not_word in Hc. destruct in_sep.
  - rewrite tokens_from_sep_run by done. by apply IH.
  - rewrite tokens_from_sep by done. rewrite (IH true "" Hs).
    rewrite !tokens_from_nil. simpl. by rewrite app_nil_r.
Qed.

Lemma tokens_from_rstrip in_sep piece s :
  tokens_from in_sep piece (rstrip s) = tokens_from in_sep piece s.
Proof.
  revert in_sep piece. induction s as [|c s IH]; intros in_sep piece; [done|].
  destruct (rstrip (String c s)) as [|c' s'] eqn:E.
  - symmetry. by apply tokens_from_blank.
  - simpl in E. destruct (is_space c && is_empty (rstrip s)); [done|].
    injection E as <- <-. destruct (is_word c) eqn:Hc.
    + rewrite !tokens_from_word by done. apply IH.
    + destruct in_sep.
      * rewrite !tokens_from_sep_run by done. apply IH.
      * rewrite !tokens_from_sep by done. by rewrite IH.
Qed.

(** The call of [strip] changes nothing: the tokens are the non-empty
    pieces of the lowered line without punctuation. *)
Lemma tokenize_unstripped line :
  tokenize line = tokens_from false "" (lower (remove_punctuation line)).
Proof.
  unfold tokenize, strip. fold (tokens_from false "").
  change (List.filter _ (re_split_W ?s)) with (tokens_from false "" s).
  by rewrite tokens_from_rstrip, tokens_from_lstrip.
Qed.

Lemma tokens_from_app_sep s in_sep piece c t :
  (in_sep = true -> piece = "") -> is_word c = false ->
  tokens_from in_sep piece (s +:+ String c t)
  = (tokens_from in_sep piece s ++ tokens_from false "" t)%list.
Proof.
  intros Hp Hc. revert in_sep piece Hp.
  induction s as [|a s IH]; intros in_sep piece Hp.
  - rewrite str_app_nil_l. destruct in_sep.
    + rewrite (Hp eq_refl). rewrite tokens_from_sep_run by done.
      by rewrite tokens_from_fresh.
    + rewrite tokens_from_sep by done. by rewrite tokens_from_fresh.
  - rewrite str_app_cons. destruct (is_word a) eqn:Ha.
    + rewrite !tokens_from_word by done. by apply IH.
    + destruct in_sep.
      * rewrite !tokens_from_sep_run by done. by apply IH.
      * rewrite !tokens_from_sep by done. rewrite IH by done.
        by rewrite app_assoc.
Qed.

Lemma tokens_from_empty_iff s in_sep piece :
  tokens_from in_sep piece s = []
  <-> piece = "" /\ str_all (fun c => negb (is_word c)) s = true.
Proof.
  revert in_sep piece. induction s as [|c s IH]; intros in_sep piece.
  - rewrite tokens_from_nil. destruct piece; simpl; intuition (done || congruence).
  - simpl. destruct (is_word c) eqn:Hc; simpl.
    + rewrite tokens_from_word by done. rewrite IH. intuition (done || congruence).
    + destruct in_sep.
      * rewrite tokens_from_sep_run by done. apply IH.
      * rewrite tokens_from_sep by done. rewrite tokens_from_nil.
        destruct piece; simpl; [|intuition (done || congruence)].
        rewrite IH. intuition (done || congruence).
Qed.

End TokenizerMore.

Lemma tokenize_split_at (s1 s2 : string) (c : ascii) :
  Chars.is_word c = false -> Chars.is_punctuation c = false ->
  tokenize (s1 +:+ String c s2) = (tokenize s1 ++ tokenize s2)%list.
Proof.
  intros Hw Hp. rewrite !tokenize_unstripped.
  unfold remove_punctuation, lower.
  rewrite str_filter_app, str_map_app. simpl. rewrite Hp. simpl.
  rewrite (non_word_lower c Hw). by apply tokens_from_app_sep.
Qed.

(** X1: every token is a non-empty string of the characters [a]..[z] and
    [0]..[9]: no upper-case letter, no underscore, no punctuation, no
    whitespace and no byte outside ASCII ever reaches the tables. *)
Theorem tokenize_tokens_alphanumeric (line : string) :
  Forall (fun t => t <> "" /\
            str_all (fun c => Chars.between 97 122 c || Chars.between 48 57 c) t
            = true)
         (tokenize line).
Proof.
  eapply Forall_impl; [apply tokenize_tokens|].
  intros t [He Ht]. split; [by destruct t|].
  revert Ht. apply str_all_impl, token_char_ranges.
Qed.

(** X2: the call of [strip] is redundant: the tokens are the non-empty
    pieces of the lowered, punctuation-free line whether or not the line is
    stripped first. *)
Theorem strip_is_redundant (line : string) :
  tokenize line
  = List.filter (fun token => negb (is_empty token))
                (re_split_W (lower (remove_punctuation line))).
Proof. apply tokenize_unstripped. Qed.

(** X3: a character that is neither a word character nor punctuation
    (whitespace, a control character, a byte above 127) separates tokens:
    the tokens of the whole line are those of the part before it followed
    by those of the part after it. *)
Theorem tokenize_app_separator (s1 s2 : string) (c : ascii) :
  Chars.is_word c = false -> Chars.is_punctuation c = false ->
  tokenize (s1 +:+ String c s2) = (tokenize s1 ++ tokenize s2)%list.
Proof. apply tokenize_split_at. Qed.

Lemma tokenize_app_separator_witness :
  tokenize ("Crooked Hillary" +:+ String " " "is BAD!")
  = (tokenize "Crooked Hillary" ++ tokenize "is BAD!")%list.
Proof. apply tokenize_app_separator; reflexivity. Defined.

(** X4: punctuation is deleted, not split on: a run of punctuation
    characters anywhere in the line changes nothing, so the words on its
    two sides are joined when nothing else separates them. *)
Theorem tokenize_punctuation_deleted (s1 p s2 : string) :
  str_all Chars.is_punctuation p = true ->
  tokenize (s1 +:+ p +:+ s2) = tokenize (s1 +:+ s2).
Proof.
  intros Hp. unfold tokenize, remove_punctuation.
  rewrite !str_filter_app. rewrite (str_filter_none _ p); [done|].
  revert Hp. apply str_all_impl. intros c Hc. by rewrite negb_involutive.
Qed.

Lemma tokenize_punctuation_deleted_witness :
  tokenize ("good" +:+ "-" +:+ "paying") = tokenize ("good" +:+ "paying").
Proof. apply tokenize_punctuation_deleted. reflexivity. Defined.

(** X5: the tokens do not depend on the case of the letters. *)
Theorem tokenize_case_insensitive (s1 s2 : string) :
  lower s1 = lower s2 -> tokenize s1 = tokenize s2.
Proof.
  intros E.
  assert (forall s, tokenize s = tokens_from false "" (remove_punctuation (lower s)))
    as Ht.
  { intros s. rewrite tokenize_unstripped. unfold remove_punctuation, lower.
    rewrite str_filter_map; [done|].
    intros c. by rewrite lower_char_punctuation. }
  by rewrite !Ht, E.
Qed.

Lemma tokenize_case_insensitive_witness :
  tokenize "Make America GREAT" = tokenize "make america great".
Proof. apply tokenize_case_insensitive. reflexivity. Defined.

(** X6: a line gives no token exactly when it holds no letter and no
    digit; the empty line, blank lines and lines of punctuation are such
    lines. *)
Theorem tokenize_nil_iff (line : string) :
  tokenize line = [] <-> str_all (fun c => negb (is_alnum c)) line = true.
Proof.
  rewrite tokenize_unstripped, tokens_from_empty_iff.
  assert (str_all (fun c => negb (Chars.is_word c))
                  (lower (remove_punctuation line))
          = str_all (fun c => negb (is_alnum c)) line) as ->.
  { unfold lower, remove_punctuation, is_alnum.
    induction line as [|c s IH]; simpl; [done|].
    destruct (Chars.is_punctuation c) eqn:Hc; simpl.
    - by rewrite IH, andb_false_r.
    - by rewrite lower_char_word, IH, andb_true_r. }
  intuition.
Qed.

(** ** What the tables hold after training *)

Section CountFacts.

Local Ltac unfold_py :=
  unfold gets, modify, lift, mbind, py_bind, mret, py_ret.

Local Ltac by_word w word :=
  destruct (decide (w = word)) as [->|?]; simpl;
  rewrite ?lookup_insert_eq, ?lookup_insert_ne by done; simpl.

Lemma initial_same_keys : same_keys initial_globals.
Proof. intros [] w; simpl; by rewrite !lookup_empty. Qed.

(** One word of a tweet: the word enters the three tables if it is new,
    and its count grows by one in [vocabulary] and in the table of the
    tweet's candidate only. *)
Lemma count_word_counts label cand word g :
  LABEL_MAP !! label = Some cand -> same_keys g ->
  exists g', count_word label word g = (g', Ok tt) /\ same_keys g' /\
    total_tweet_count g' = total_tweet_count g /\
    (forall w, is_Some (vocabulary g' !! w)
               <-> w = word \/ is_Some (vocabulary g !! w)) /\
    (forall w, vocabulary_count g' w
               = (vocabulary_count g w + if decide (w = word) then 1 else 0)%Z) /\
    (forall c w, word_count g' c w
                 = (word_count g c w
                    + if decide (c = cand /\ w = word) then 1 else 0)%Z).
Proof.
  intros Hl Hk.
  unfold count_word, incr_vocabulary, incr_word_count, incr_item, get_item.
  unfold_py. rewrite Hl.
  destruct (decide (vocabulary g !! word = None)) as [Hn|Hs]; simpl.
  - assert (forall c, pc_get c (word_counts_per_candidate g) !! word = None)
      as Hnc.
    { intros c. apply eq_None_not_Some. rewrite (Hk c word), Hn. by intros []. }
    pose proof (Hnc trump) as Hnt. pose proof (Hnc hillary) as Hnh.
    simpl in Hnt, Hnh.
    rewrite lookup_insert_eq. simpl.
    destruct cand; simpl; rewrite lookup_insert_eq; simpl;
      (eexists; split; [reflexivity|split; [|split; [done|split; [|split]]]]).
    all: unfold same_keys, vocabulary_count, word_count; simpl.
    all: try (intros [] w; by_word w word; try apply (Hk trump);
              try apply (Hk hillary); split; by eauto).
    all: try (intros w; by_word w word;
              [split; by eauto|split; [by eauto|by intros [|]]]).
    all: try (intros w; by_word w word; rewrite ?Hn; simpl;
              unfold SMOOTHING; repeat case_decide; lia).
    all: intros [] w; by_word w word; rewrite ?Hnt, ?Hnh; simpl;
      repeat case_decide; first [lia | exfalso; intuition congruence].
  - assert (is_Some (vocabulary g !! word)) as Hv.
    { by destruct (vocabulary g !! word); [eexists|]. }
    destruct (proj2 (Hk cand word) Hv) as [n Hn].
    destruct Hv as [v Hv]. rewrite Hv. simpl. rewrite Hn. simpl.
    eexists; split; [reflexivity|split; [|split; [done|split; [|split]]]].
    all: unfold same_keys, vocabulary_count, word_count; simpl.
    + pose proof (proj2 (Hk trump word) (mk_is_Some _ _ Hv)) as Ht.
      pose proof (proj2 (Hk hillary word) (mk_is_Some _ _ Hv)) as Hh.
      intros c w. destruct cand, c; simpl in *; by_word w word;
        first [apply (Hk trump) | apply (Hk hillary) | split; by eauto].
    + intros w. by_word w word; rewrite ?Hv; [split; by eauto|].
      split; [by eauto|by intros [|]].
    + intros w. by_word w word; rewrite ?Hv; simpl; repeat case_decide; lia.
    + intros c w. destruct cand, c; simpl in *; by_word w word; rewrite ?Hn;
        simpl; repeat case_decide; first [lia | exfalso; intuition congruence].
Qed.

Lemma occurrences_app w (l1 l2 : list string) :
  occurrences w (l1 ++ l2)%list = (occurrences w l1 + occurrences w l2)%Z.
Proof. induction l1 as [|t l1 IH]; simpl; [done|]. rewrite IH. lia. Qed.

Lemma occurrences_nonneg w (l : list string) : (0 <= occurrences w l)%Z.
Proof. induction l as [|t l IH]; simpl; [done|]. case_decide; lia. Qed.

Lemma occurrences_pos w (l : list string) :
  (0 < occurrences w l)%Z <-> w ∈ l.
Proof.
  induction l as [|t l IH]; simpl.
  - split; [lia|by intros ?%elem_of_nil].
  - pose proof (occurrences_nonneg w l). rewrite elem_of_cons.
    case_decide; subst; [intuition lia|].
    rewrite Z.add_0_l, IH. intuition congruence.
Qed.

Lemma count_words_counts label cand (tokens : list string) g :
  LABEL_MAP !! label = Some cand -> same_keys g ->
  exists g', for_each tokens (count_word label) g = (g', Ok tt) /\
    same_keys g' /\ total_tweet_count g' = total_tweet_count g /\
    (forall w, is_Some (vocabulary g' !! w)
               <-> w ∈ tokens \/ is_Some (vocabulary g !! w)) /\
    (forall w, vocabulary_count g' w
               = (vocabulary_count g w + occurrences w tokens)%Z) /\
    (forall c w, word_count g' c w
                 = (word_count g c w
                    + if decide (c = cand) then occurrences w tokens else 0)%Z).
Proof.
  intros Hl. revert g. induction tokens as [|word tokens IH]; intros g Hk.
  - exists g. split; [done|]. split; [done|]. split; [done|].
    split; [|split].
    + intros w. rewrite elem_of_nil. intuition.
    + intros w. simpl. lia.
    + intros c w. simpl. case_decide; lia.
  - destruct (count_word_counts label cand word g Hl Hk)
      as (g1 & E1 & Hk1 & T1 & D1 & V1 & W1).
    destruct (IH g1 Hk1) as (g2 & E2 & Hk2 & T2 & D2 & V2 & W2).
    exists g2. rewrite for_each_cons, E1, E2.
    split; [done|]. split; [done|]. split; [congruence|]. split; [|split].
    + intros w. rewrite D2, D1, elem_of_cons. intuition.
    + intros w. rewrite V2, V1. simpl.
      destruct (decide (w = word)), (decide (word = w)); try congruence; lia.
    + intros c w. rewrite W2, W1. simpl.
      destruct (decide (c = cand)), (decide (word = w));
        case_decide; first [lia | exfalso; intuition congruence].
Qed.

Lemma has_class_label c tweet label cand :
  LABEL_MAP !! label = Some cand ->
  has_class c (tweet, label) = bool_decide (c = cand).
Proof.
  intros Hl. unfold has_class. simpl. rewrite Hl.
  apply bool_decide_ext. split; congruence.
Qed.

(** The whole loop, from any tables with the same keys. *)
Lemma train_loop_counts docs g :
  labels_known docs = true -> same_keys g ->
  exists g', train_loop docs g = (g', Ok tt) /\ same_keys g' /\
    (forall w, is_Some (vocabulary g' !! w)
               <-> w ∈ all_tokens docs \/ is_Some (vocabulary g !! w)) /\
    (forall w, vocabulary_count g' w
               = (vocabulary_count g w + occurrences w (all_tokens docs))%Z) /\
    (forall c w, word_count g' c w
                 = (word_count g c w + class_occurrences c w docs)%Z).
Proof.
  revert g. induction docs as [|[tweet label] docs IH]; intros g Hl Hk.
  - exists g. split; [done|]. split; [done|]. split; [|split].
    + intros w. simpl. rewrite elem_of_nil. intuition.
    + intros w. simpl. lia.
    + intros c w. simpl. lia.
  - simpl in Hl. apply andb_true_iff in Hl as [Hl Hls].
    apply bool_decide_eq_true in Hl as [cand Hl]. simpl in Hl.
    set (g0 := set_total_tweet_count cand
                 (pc_get cand (total_tweet_count g) + 1)%Z g).
    assert (same_keys g0) as Hk0 by done.
    destruct (count_words_counts label cand (tokenize tweet) g0 Hl Hk0)
      as (g1 & E1 & Hk1 & _ & D1 & V1 & W1).
    destruct (IH g1 Hls Hk1) as (g2 & E2 & Hk2 & D2 & V2 & W2).
    exists g2. split; [|split; [done|split; [|split]]].
    + unfold train_loop in *. rewrite for_each_cons.
      unfold train_doc at 1, get_item.
      unfold gets, modify, lift, mbind, py_bind, mret, py_ret.
      rewrite Hl. fold g0. by rewrite E1.
    + intros w. rewrite D2, D1. unfold all_tokens. simpl.
      rewrite elem_of_app. intuition.
    + intros w. rewrite V2, V1. unfold all_tokens. simpl.
      rewrite occurrences_app. unfold vocabulary_count. simpl. lia.
    + intros c w. rewrite W2, W1. simpl.
      rewrite (has_class_label c tweet label cand Hl).
      unfold word_count. simpl.
      destruct (decide (c = cand)).
      * rewrite bool_decide_eq_true_2 by done. lia.
      * rewrite bool_decide_eq_false_2 by done. lia.
Qed.

(** The tables after a training loop that ran to its end. *)
Lemma train_counts docs g :
  train docs = (g, Ok tt) ->
  same_keys g /\
  (forall w, is_Some (vocabulary g !! w) <-> w ∈ all_tokens docs) /\
  (forall w, vocabulary_count g w
             = (2 * SMOOTHING + occurrences w (all_tokens docs))%Z) /\
  (forall c w, word_count g c w = (SMOOTHING + class_occurrences c w docs)%Z).
Proof.
  intros E. destruct (train_ok_inv docs g E) as (Hl & _ & _).
  destruct (train_loop_counts docs _ Hl initial_same_keys)
    as (g' & E' & Hk & D & V & W).
  unfold train in E. rewrite E in E'. injection E' as <-.
  split; [done|]. split; [|split].
  - intros w. rewrite D. simpl. rewrite lookup_empty.
    split; [intros [|[]]|]; by eauto.
  - intros w. by rewrite V.
  - intros c w. rewrite W. by destruct c.
Qed.

(** A run that stopped, for whatever reason, leaves the tables of a
    completed training loop over a prefix of the corpus. *)
Lemma train_reaches docs g r :
  train docs = (g, r) ->
  exists pre post, docs = (pre ++ post)%list /\ train pre = (g, Ok tt).
Proof.
  destruct r as [[]|e]; intros E.
  - exists docs, []. by rewrite app_nil_r.
  - destruct (train_loop_raise docs _ _ _ initial_globals_ok E)
      as (pre & bad & post & -> & _ & _ & _ & Ep).
    by exists pre, (bad :: post).
Qed.

Lemma class_occurrences_sum w docs :
  labels_known docs = true ->
  (class_occurrences trump w docs + class_occurrences hillary w docs)%Z
  = occurrences w (all_tokens docs).
Proof.
  induction docs as [|[tweet label] docs IH]; [done|]. simpl.
  intros [Hl Hls]%andb_true_iff.
  apply bool_decide_eq_true in Hl as [cand Hl]. simpl in Hl.
  rewrite !(has_class_label _ tweet label cand Hl).
  unfold all_tokens in *. simpl. rewrite occurrences_app, <- (IH Hls).
  destruct cand; simpl; lia.
Qed.

End CountFacts.

Section TrainedTables.

Lemma train_lookups docs g w :
  train docs = (g, Ok tt) ->
  vocabulary g !! w
  = (if decide (w ∈ all_tokens docs)
     then Some (2 * SMOOTHING + occurrences w (all_tokens docs))%Z else None) /\
  forall c, pc_get c (word_counts_per_candidate g) !! w
            = (if decide (w ∈ all_tokens docs)
               then Some (SMOOTHING + class_occurrences c w docs)%Z else None).
Proof.
  intros E. destruct (train_counts docs g E) as (Hk & D & V & W).
  specialize (D w). specialize (V w). unfold vocabulary_count in V.
  split; [|intros c; specialize (W c w); specialize (Hk c w);
           unfold word_count in W].
  - destruct (vocabulary g !! w) as [v|]; simpl in V; case_decide as Hw.
    + by rewrite V.
    + destruct Hw. apply D. by eexists.
    + apply D in Hw. by destruct Hw.
    + done.
  - destruct (pc_get c (word_counts_per_candidate g) !! w) as [n|];
      simpl in W; case_decide as Hw.
    + by rewrite W.
    + destruct Hw. apply D, Hk. by eexists.
    + apply D, Hk in Hw. by destruct Hw.
    + done.
Qed.

Lemma class_count_sum docs :
  labels_known docs = true ->
  (class_count trump docs + class_count hillary docs)%Z
  = Z.of_nat (length docs).
Proof.
  induction docs as [|[tweet label] docs IH]; [done|]. simpl.
  intros [Hl Hls]%andb_true_iff.
  apply bool_decide_eq_true in Hl as [cand Hl]. simpl in Hl.
  rewrite !class_count_cons, Hl. specialize (IH Hls).
  destruct cand; repeat case_decide; simplify_eq; lia.
Qed.

Lemma labels_known_perm docs docs' :
  docs ≡ₚ docs' -> labels_known docs = labels_known docs'.
Proof.
  unfold labels_known. induction 1 as [|d l l' _ IH|d d' l|l1 l2 l3 _ IH1 _ IH2];
    simpl; [done|by rewrite IH| |congruence].
  destruct (label_known d), (label_known d'); done.
Qed.

Lemma class_count_perm c docs docs' :
  docs ≡ₚ docs' -> class_count c docs = class_count c docs'.
Proof.
  unfold class_count. induction 1 as [|d l l' _ IH|d d' l|l1 l2 l3 _ IH1 _ IH2];
    simpl; [done| | |congruence].
  - destruct (has_class c d); simpl; lia.
  - destruct (has_class c d), (has_class c d'); simpl; lia.
Qed.

Lemma class_occurrences_perm c w docs docs' :
  docs ≡ₚ docs' -> class_occurrences c w docs = class_occurrences c w docs'.
Proof.
  induction 1 as [|d l l' _ IH|d d' l|l1 l2 l3 _ IH1 _ IH2];
    simpl; [done|by rewrite IH|lia|congruence].
Qed.

Lemma all_tokens_perm docs docs' :
  docs ≡ₚ docs' -> all_tokens docs ≡ₚ all_tokens docs'.
Proof.
  unfold all_tokens. induction 1 as [|d l l' _ IH|d d' l|l1 l2 l3 _ IH1 _ IH2];
    simpl; [done|by rewrite IH| |by etrans].
  rewrite !app_assoc. f_equiv. apply Permutation_app_comm.
Qed.

Lemma occurrences_perm w (l l' : list string) :
  l ≡ₚ l' -> occurrences w l = occurrences w l'.
Proof.
  induction 1 as [|t l l' _ IH|t t' l|l1 l2 l3 _ IH1 _ IH2];
    simpl; [done|by rewrite IH|lia|congruence].
Qed.

Lemma globals_eq g g' :
  vocabulary g = vocabulary g' ->
  (forall c, pc_get c (word_counts_per_candidate g)
             = pc_get c (word_counts_per_candidate g')) ->
  (forall c, pc_get c (total_tweet_count g) = pc_get c (total_tweet_count g')) ->
  g = g'.
Proof.
  destruct g as [[wt wh] [tt th] v], g' as [[wt' wh'] [tt' th'] v']. simpl.
  intros -> Hw Ht.
  pose proof (Hw trump) as Hw1. pose proof (Hw hillary) as Hw2.
  pose proof (Ht trump) as Ht1. pose proof (Ht hillary) as Ht2.
  simpl in *. by subst.
Qed.

End TrainedTables.

(** X7: after a training loop that ran to its end, the vocabulary is
    exactly the set of tokens of the tweets; a word's entry in [vocabulary]
    is two plus the number of its occurrences in all tweets, and its entry
    for a candidate is one plus the number of its occurrences in that
    candidate's tweets (every occurrence counts, also within one tweet). *)
Theorem trained_tables_closed_form docs g w :
  train docs = (g, Ok tt) ->
  vocabulary g !! w
  = (if decide (w ∈ all_tokens docs)
     then Some (2 + occurrences w (all_tokens docs))%Z else None) /\
  forall c, pc_get c (word_counts_per_candidate g) !! w
            = (if decide (w ∈ all_tokens docs)
               then Some (1 + class_occurrences c w docs)%Z else None).
Proof. apply train_lookups. Qed.

Lemma trained_tables_closed_form_witness :
  vocabulary (train sample_docs).1 !! "cats"
  = (if decide ("cats" ∈ all_tokens sample_docs)
     then Some (2 + occurrences "cats" (all_tokens sample_docs))%Z else None) /\
  forall c, pc_get c (word_counts_per_candidate (train sample_docs).1) !! "cats"
            = (if decide ("cats" ∈ all_tokens sample_docs)
               then Some (1 + class_occurrences c "cats" sample_docs)%Z
               else None).
Proof.
  apply (trained_tables_closed_form sample_docs). exact train_sample_docs.
Defined.

(** X8: whatever made the run stop, the tables it leaves are consistent:
    a word of the vocabulary has an entry for both candidates, and its
    vocabulary count is the sum of the two. *)
Theorem vocabulary_count_is_sum docs g r w v :
  train docs = (g, r) -> vocabulary g !! w = Some v ->
  exists nt nh,
    of_trump (word_counts_per_candidate g) !! w = Some nt /\
    of_hillary (word_counts_per_candidate g) !! w = Some nh /\
    v = (nt + nh)%Z.
Proof.
  intros E Hv. destruct (train_reaches docs g r E) as (pre & _ & _ & Ep).
  destruct (train_ok_inv pre g Ep) as (Hl & _ & _).
  destruct (train_lookups pre g w Ep) as [Ev Ew].
  pose proof (Ew trump) as Et. pose proof (Ew hillary) as Eh.
  simpl in Et, Eh. rewrite Hv in Ev. case_decide; [|done].
  eexists _, _. split; [done|]. split; [done|].
  injection Ev as ->. rewrite <- (class_occurrences_sum w pre Hl).
  unfold SMOOTHING. lia.
Qed.

Lemma vocabulary_count_is_sum_witness :
  exists nt nh,
    of_trump (word_counts_per_candidate (train unterminated_docs).1) !! "a"
    = Some nt /\
    of_hillary (word_counts_per_candidate (train unterminated_docs).1) !! "a"
    = Some nh /\
    3%Z = (nt + nh)%Z.
Proof.
  apply (vocabulary_count_is_sum unterminated_docs _ (Raise KeyError) "a").
  - vm_compute. reflexivity.
  - vm_compute. reflexivity.
Defined.

(** X9: after a training loop that ran to its end, [total_tweet_count]
    holds for each candidate the number of documents with its label, and
    the two counts add up to the number of documents. *)
Theorem tweet_counts_partition docs g :
  train docs = (g, Ok tt) ->
  (forall c, pc_get c (total_tweet_count g) = class_count c docs) /\
  (of_trump (total_tweet_count g) + of_hillary (total_tweet_count g))%Z
  = Z.of_nat (length docs).
Proof.
  intros E. destruct (train_ok_inv docs g E) as (Hl & _ & T).
  split; [done|]. rewrite <- (class_count_sum docs Hl).
  by rewrite <- (T trump), <- (T hillary).
Qed.

Lemma tweet_counts_partition_witness :
  (forall c, pc_get c (total_tweet_count (train sample_docs).1)
             = class_count c sample_docs) /\
  (of_trump (total_tweet_count (train sample_docs).1)
   + of_hillary (total_tweet_count (train sample_docs).1))%Z
  = Z.of_nat (length sample_docs).
Proof. apply tweet_counts_partition. exact train_sample_docs. Defined.

(** X10: the order of the training documents does not matter: a
    permutation of a corpus on which the loop runs to its end gives the
    same tables. *)
Theorem train_permutation docs docs' g :
  docs ≡ₚ docs' -> train docs = (g, Ok tt) -> train docs' = (g, Ok tt).
Proof.
  intros Hp E. destruct (train_ok_inv docs g E) as (Hl & _ & T).
  rewrite (labels_known_perm _ _ Hp) in Hl.
  pose proof (train_run docs' Hl) as E'. rewrite E'. f_equal.
  set (g' := (train docs').1) in *.
  destruct (train_ok_inv docs' g' E') as (_ & _ & T').
  assert (forall w, w ∈ all_tokens docs' <-> w ∈ all_tokens docs) as Hin.
  { intros w. by rewrite (all_tokens_perm _ _ Hp). }
  apply globals_eq.
  - apply map_eq. intros w.
    rewrite (proj1 (train_lookups docs' g' w E')),
      (proj1 (train_lookups docs g w E)).
    rewrite (occurrences_perm w _ _ (all_tokens_perm _ _ Hp)).
    repeat case_decide; try done; exfalso;
      match goal with H : ¬ _ |- _ => apply H; by apply Hin end.
  - intros c. apply map_eq. intros w.
    rewrite (proj2 (train_lookups docs' g' w E') c),
      (proj2 (train_lookups docs g w E) c).
    rewrite (class_occurrences_perm c w _ _ Hp).
    repeat case_decide; try done; exfalso;
      match goal with H : ¬ _ |- _ => apply H; by apply Hin end.
  - intros c. by rewrite T, T', (class_count_perm c _ _ Hp).
Qed.

Lemma train_permutation_witness :
  train (rev sample_docs) = ((train sample_docs).1, Ok tt).
Proof.
  apply (train_permutation sample_docs).
  - apply Permutation_rev.
  - exact train_sample_docs.
Defined.

(** ** The derived tables *)

(** X11: the probability table of a candidate has exactly the words seen
    in training as keys, and holds for each the add-one estimate: one plus
    the occurrences of the word in the candidate's tweets, divided by the
    number of the candidate's tweets plus two. *)
Theorem word_probability_closed_form docs g m c w :
  fit docs = (g, Ok m) ->
  pc_get c (word_probabilities_per_candidate m) !! w
  = (if decide (w ∈ all_tokens docs)
     then Some (IZR (1 + class_occurrences c w docs)
                / (IZR (class_count c docs) + 2))%R
     else None).
Proof.
  intros (E & -> & _ & _ & _ & _ & T)%fit_inv.
  pose proof (proj2 (train_lookups docs g w E) c) as Ew.
  rewrite <- (T c).
  destruct c; simpl in *; rewrite lookup_fmap, Ew; by case_decide.
Qed.

Lemma word_probability_closed_form_witness :
  pc_get trump (word_probabilities_per_candidate sample_model) !! "cats"
  = (if decide ("cats" ∈ all_tokens sample_docs)
     then Some (IZR (1 + class_occurrences trump "cats" sample_docs)
                / (IZR (class_count trump sample_docs) + 2))%R
     else None).
Proof.
  exact (word_probability_closed_form sample_docs _ _ trump "cats"
           fit_sample_docs).
Defined.

(** ** Classification *)

Lemma logSum_app m c (l1 l2 : list string) :
  Spec.logSum m c (l1 ++ l2)%list
  = (Spec.logSum m c l1 + Spec.logSum m c l2)%R.
Proof.
  unfold Spec.logSum. induction l1 as [|t l1 IH]; simpl; [lra|].
  destruct (Spec.in_vocabulary m t); simpl; rewrite IH; lra.
Qed.

Lemma logSum_all_oov m c (tokens : list string) :
  Forall (fun t => vocabulary (tables m) !! t = None) tokens ->
  Spec.logSum m c tokens = 0%R.
Proof.
  induction 1 as [|t tokens Hn _ IH]; [done|]. by rewrite logSum_oov.
Qed.

(** X14: text appended after a separator (a character that is neither a
    word character nor punctuation) changes nothing when none of its
    tokens is in the vocabulary. *)
Theorem predict_ignores_unknown_suffix docs g m text extra (c : ascii) :
  fit docs = (g, Ok m) ->
  Chars.is_word c = false -> Chars.is_punctuation c = false ->
  Forall (fun t => vocabulary g !! t = None) (tokenize extra) ->
  predict m (text +:+ String c extra) = predict m text.
Proof.
  intros (_ & -> & Hg & _)%fit_inv Hw Hp Hoov. unfold predict.
  rewrite (tokenize_split_at text extra c Hw Hp).
  rewrite !predict_tokens_run by done. unfold Spec.argmax, Spec.logScore.
  rewrite !logSum_app, !(logSum_all_oov _ _ (tokenize extra)) by done.
  by rewrite !Rplus_0_r.
Qed.

Lemma predict_ignores_unknown_suffix_witness :
  predict sample_model ("I love cats" +:+ String " " "#MAGA!")
  = predict sample_model "I love cats".
Proof.
  apply (predict_ignores_unknown_suffix sample_docs _ _ _ _ _ fit_sample_docs);
    [reflexivity..|].
  change (tokenize "#MAGA!") with ["maga"].
  constructor; [|constructor]. vm_compute. reflexivity.
Defined.

(** ** Evaluation on the test set *)

Section EvaluationFacts.

Local Ltac contradict_cells :=
  exfalso; repeat match goal with H : _ /\ _ |- _ => destruct H end;
  simplify_eq; match goal with H : ¬ _ |- _ => apply H; by split end.

Lemma outcome_incr guess truth guess' truth' o :
  outcome guess' truth' (incr_outcome guess truth o)
  = (outcome guess' truth' o
     + if decide (guess' = guess /\ truth' = truth) then 1 else 0)%Z.
Proof.
  unfold outcome, incr_outcome.
  destruct guess, truth, guess', truth'; simpl;
    try case_decide; first [lia | exfalso; intuition congruence].
Qed.

Lemma outcome_count_cons m guess truth doc docs :
  outcome_count m guess truth (doc :: docs)
  = ((if decide (predict m doc.1 = Ok guess /\ LABEL_MAP !! doc.2 = Some truth)
      then 1 else 0) + outcome_count m guess truth docs)%Z.
Proof.
  unfold outcome_count. rewrite filter_cons.
  repeat case_decide; simpl; first [lia | done].
Qed.

Lemma outcome_count_nonneg m guess truth docs :
  (0 <= outcome_count m guess truth docs)%Z.
Proof. unfold outcome_count. lia. Qed.

Lemma predict_trained g text :
  tables_ok g ->
  predict (trained_model g) text
  = Ok (Spec.predictedClass (trained_model g) text).
Proof. intros Hg. unfold predict. by rewrite predict_tokens_run. Qed.

(** One test document with a known label on a trained model. *)
Lemma evaluate_doc_run g tweet label truth o :
  tables_ok g -> LABEL_MAP !! label = Some truth ->
  evaluate_doc (trained_model g) (tweet, label) o
  = (incr_outcome (Spec.predictedClass (trained_model g) tweet) truth o, Ok tt).
Proof.
  intros Hg Hl. unfold evaluate_doc, get_item.
  by rewrite predict_trained, Hl.
Qed.

(** A test document whose label is unknown: the prediction is made, the
    lookup of the label raises and nothing is counted. *)
Lemma evaluate_doc_raise g tweet label o :
  tables_ok g -> LABEL_MAP !! label = None ->
  evaluate_doc (trained_model g) (tweet, label) o = (o, Raise KeyError).
Proof.
  intros Hg Hl. unfold evaluate_doc, get_item.
  by rewrite predict_trained, Hl.
Qed.

Lemma evaluate_loop_cons m doc docs o :
  evaluate_loop m (doc :: docs) o
  = match evaluate_doc m doc o with
    | (o', Ok _) => evaluate_loop m docs o'
    | (o', Raise e) => (o', Raise e)
    end.
Proof. reflexivity. Qed.

Lemma evaluate_loop_run g tests o :
  tables_ok g -> labels_known tests = true ->
  exists o', evaluate_loop (trained_model g) tests o = (o', Ok tt) /\
    forall guess truth,
      outcome guess truth o'
      = (outcome guess truth o
         + outcome_count (trained_model g) guess truth tests)%Z.
Proof.
  intros Hg. revert o. induction tests as [|[tweet label] tests IH]; intros o Hl.
  - exists o. split; [done|]. intros guess truth. unfold outcome_count.
    simpl. lia.
  - simpl in Hl. apply andb_true_iff in Hl as [Hl Hls].
    apply bool_decide_eq_true in Hl as [truth Hl]. simpl in Hl.
    destruct (IH (incr_outcome (Spec.predictedClass (trained_model g) tweet)
                               truth o) Hls) as (o' & E & Ho).
    exists o'. split.
    + by rewrite evaluate_loop_cons, (evaluate_doc_run g _ _ truth).
    + intros guess' truth'.
      rewrite Ho, outcome_incr, outcome_count_cons. simpl.
      rewrite predict_trained, Hl by done.
      repeat case_decide; first [lia | contradict_cells].
Qed.

Lemma evaluate_loop_raise g tests o o' e :
  tables_ok g -> evaluate_loop (trained_model g) tests o = (o', Raise e) ->
  e = KeyError /\
  exists pre bad post,
    tests = (pre ++ bad :: post)%list /\ labels_known pre = true /\
    LABEL_MAP !! bad.2 = None /\
    evaluate_loop (trained_model g) pre o = (o', Ok tt).
Proof.
  intros Hg. revert o. induction tests as [|[tweet label] tests IH]; intros o.
  - by intros [=].
  - rewrite evaluate_loop_cons.
    destruct (LABEL_MAP !! label) as [truth|] eqn:Hl.
    + rewrite (evaluate_doc_run g _ _ truth) by done. intros E.
      destruct (IH _ E) as (-> & pre & bad & post & -> & Hk & Hb & Ep).
      split; [done|]. exists ((tweet, label) :: pre), bad, post.
      split; [done|]. split; [|split; [done|]].
      * simpl. rewrite Hk, andb_true_r. apply bool_decide_eq_true.
        simpl. by rewrite Hl.
      * by rewrite evaluate_loop_cons, (evaluate_doc_run g _ _ truth).
    + rewrite evaluate_doc_raise by done. intros [= <- <-].
      split; [done|]. by exists [], (tweet, label), tests.
Qed.

(** With known labels every test document is counted in exactly one of the
    four cells. *)
Lemma outcome_count_total g tests :
  tables_ok g -> labels_known tests = true ->
  (outcome_count (trained_model g) trump trump tests
   + outcome_count (trained_model g) trump hillary tests
   + outcome_count (trained_model g) hillary hillary tests
   + outcome_count (trained_model g) hillary trump tests)%Z
  = Z.of_nat (length tests).
Proof.
  intros Hg. induction tests as [|[tweet label] tests IH]; [done|].
  simpl. intros [Hl Hls]%andb_true_iff.
  apply bool_decide_eq_true in Hl as [truth Hl]. simpl in Hl.
  rewrite !outcome_count_cons. simpl. rewrite predict_trained, Hl by done.
  specialize (IH Hls).
  destruct (Spec.predictedClass (trained_model g) tweet), truth;
    repeat case_decide; first [lia | contradict_cells].
Qed.

End EvaluationFacts.

(** X15: on a model that a run produced and a test corpus whose labels are
    all known, the evaluation loop raises nothing; each cell of [outcomes]
    ends as the number of test documents with that prediction and that
    label, and the four cells add up to the number of test documents. *)
Theorem evaluate_counts docs g m tests :
  fit docs = (g, Ok m) -> labels_known tests = true ->
  exists o,
    evaluate m tests = (o, Ok tt) /\
    (forall guess truth,
       outcome guess truth o = outcome_count m guess truth tests) /\
    (outcome trump trump o + outcome trump hillary o
     + outcome hillary hillary o + outcome hillary trump o)%Z
    = Z.of_nat (length tests).
Proof.
  intros (_ & -> & Hg & _)%fit_inv Hl.
  destruct (evaluate_loop_run g tests initial_outcomes Hg Hl) as (o & E & Ho).
  exists o. split; [done|].
  assert (forall guess truth,
            outcome guess truth o
            = outcome_count (trained_model g) guess truth tests) as Hc.
  { intros guess truth. rewrite Ho. by destruct guess, truth. }
  split; [done|]. rewrite !Hc. by apply outcome_count_total.
Qed.

Lemma evaluate_counts_witness :
  exists o,
    evaluate sample_model sample_test_docs = (o, Ok tt) /\
    (forall guess truth,
       outcome guess truth o
       = outcome_count sample_model guess truth sample_test_docs) /\
    (outcome trump trump o + outcome trump hillary o
     + outcome hillary hillary o + outcome hillary trump o)%Z
    = Z.of_nat (length sample_test_docs).
Proof.
  apply (evaluate_counts sample_docs _ _ _ fit_sample_docs).
  vm_compute. reflexivity.
Defined.

(** X16: for such an evaluation, [accuracy] raises [ZeroDivisionError] when
    the test corpus is empty; otherwise it is the number of correct
    predictions over the number of test documents, lies between 0 and 1,
    and is 1 exactly when no document was misclassified. *)
Theorem accuracy_of_evaluation docs g m tests :
  fit docs = (g, Ok m) -> labels_known tests = true ->
  exists o,
    evaluate m tests = (o, Ok tt) /\
    accuracy o
    = (if decide (tests = []) then Raise ZeroDivisionError
       else Ok (IZR (outcome hillary hillary o + outcome trump trump o)
                / IZR (Z.of_nat (length tests)))%R) /\
    forall a, accuracy o = Ok a ->
      (0 <= a <= 1)%R /\
      (a = 1%R <->
       outcome trump hillary o = 0%Z /\ outcome hillary trump o = 0%Z).
Proof.
  intros (_ & -> & Hg & _)%fit_inv Hl.
  destruct (evaluate_loop_run g tests initial_outcomes Hg Hl) as (o & E & Ho).
  exists o. split; [done|].
  assert (forall guess truth, (0 <= outcome guess truth o)%Z) as Hnn.
  { intros guess truth. rewrite Ho.
    pose proof (outcome_count_nonneg (trained_model g) guess truth tests).
    destruct guess, truth; simpl; lia. }
  assert ((outcome trump trump o + outcome trump hillary o
           + outcome hillary hillary o + outcome hillary trump o)%Z
          = Z.of_nat (length tests)) as Hsum.
  { rewrite !Ho, <- (outcome_count_total g tests Hg Hl). simpl. lia. }
  assert (sum_outcomes o = IZR (Z.of_nat (length tests))) as Hs.
  { rewrite <- Hsum. unfold sum_outcomes. by rewrite !plus_IZR. }
  pose proof (IZR_nonneg _ (Hnn trump trump)) as Ntt.
  pose proof (IZR_nonneg _ (Hnn trump hillary)) as Nth.
  pose proof (IZR_nonneg _ (Hnn hillary hillary)) as Nhh.
  pose proof (IZR_nonneg _ (Hnn hillary trump)) as Nht.
  assert (accuracy o
          = (if decide (tests = []) then Raise ZeroDivisionError
             else Ok (IZR (outcome hillary hillary o + outcome trump trump o)
                      / IZR (Z.of_nat (length tests)))%R)) as Ha.
  { unfold accuracy. rewrite Hs. case_decide as Hd.
    - subst. simpl. unfold py_div. by destruct (Req_dec_T _ _).
    - rewrite py_div_run, plus_IZR; [done|].
      apply not_0_IZR. destruct tests; [done|]. simpl. lia. }
  split; [done|]. intros a. rewrite Ha. case_decide as Hd; [done|].
  intros [= <-]. rewrite <- Hs, plus_IZR. unfold sum_outcomes in *.
  assert (0 < IZR (Z.of_nat (length tests)))%R as Hpos.
  { apply IZR_pos. destruct tests; [done|]. simpl. lia. }
  rewrite <- Hs in Hpos.
  set (tt' := IZR (outcome trump trump o)) in *.
  set (th' := IZR (outcome trump hillary o)) in *.
  set (hh' := IZR (outcome hillary hillary o)) in *.
  set (ht' := IZR (outcome hillary trump o)) in *.
  change (IZR (of_hillary (of_hillary o))) with hh'.
  change (IZR (of_trump (of_trump o))) with tt'.
  assert (forall x d, 0 < d -> (x / d = 1 <-> x = d))%R as Hdiv.
  { intros x d Hd'. split; [|intros ->; by field; lra].
    intros Hx. apply (Rmult_eq_reg_r (/ d)); [|apply Rinv_neq_0_compat; lra].
    unfold Rdiv in Hx. rewrite Hx. field. lra. }
  split; [split|].
  - apply Rmult_le_pos; [lra|]. apply Rlt_le, Rinv_0_lt_compat. lra.
  - apply (Rmult_le_reg_r (tt' + th' + hh' + ht')); [done|].
    unfold Rdiv. rewrite Rmult_assoc, Rinv_l by lra. lra.
  - rewrite (Hdiv _ _ Hpos). split.
    + intros Heq.
      assert (th' = 0 /\ ht' = 0)%R as [H1 H2] by (split; lra).
      split; by apply eq_IZR.
    + intros [H1 H2]. unfold th', ht'. rewrite H1, H2. lra.
Qed.

Lemma accuracy_of_evaluation_witness :
  exists o,
    evaluate sample_model sample_test_docs = (o, Ok tt) /\
    accuracy o
    = (if decide (sample_test_docs = []) then Raise ZeroDivisionError
       else Ok (IZR (outcome hillary hillary o + outcome trump trump o)
                / IZR (Z.of_nat (length sample_test_docs)))%R) /\
    forall a, accuracy o = Ok a ->
      (0 <= a <= 1)%R /\
      (a = 1%R <->
       outcome trump hillary o = 0%Z /\ outcome hillary trump o = 0%Z).
Proof.
  apply (accuracy_of_evaluation sample_docs _ _ _ fit_sample_docs).
  vm_compute. reflexivity.
Defined.

Lemma evaluate_unterminated_docs :
  evaluate sample_model unterminated_docs
  = (incr_outcome (Spec.predictedClass sample_model "a b") hillary
       initial_outcomes,
     Raise KeyError).
Proof.
  unfold evaluate, unterminated_docs, sample_model.
  rewrite evaluate_loop_cons, (evaluate_doc_run _ _ _ hillary);
    [|apply sample_tables_ok|reflexivity].
  rewrite evaluate_loop_cons, evaluate_doc_raise;
    [done|apply sample_tables_ok|reflexivity].
Qed.

(** X17: on a model that a run produced, the evaluation loop can only fail
    with [KeyError], at the first test document whose label is not a key of
    [LABEL_MAP]; [outcomes] then holds the counts of the test documents
    before that one. *)
Theorem evaluate_failure docs g m tests o e :
  fit docs = (g, Ok m) -> evaluate m tests = (o, Raise e) ->
  e = KeyError /\
  exists pre bad post,
    tests = (pre ++ bad :: post)%list /\ labels_known pre = true /\
    LABEL_MAP !! bad.2 = None /\ evaluate m pre = (o, Ok tt).
Proof.
  intros (_ & -> & Hg & _)%fit_inv E. by apply (evaluate_loop_raise g tests).
Qed.

Lemma evaluate_failure_witness :
  KeyError = KeyError /\
  exists pre bad post,
    unterminated_docs = (pre ++ bad :: post)%list /\ labels_known pre = true /\
    LABEL_MAP !! bad.2 = None /\
    evaluate sample_model pre
    = (incr_outcome (Spec.predictedClass sample_model "a b") hillary
         initial_outcomes,
       Ok tt).
Proof.
  exact (evaluate_failure sample_docs _ _ unterminated_docs _ _
           fit_sample_docs evaluate_unterminated_docs).
Defined.

(** ** The outcome of a run *)

(** X18: what a run over a corpus ends with, case by case: [KeyError] when
    some label is not a key of [LABEL_MAP]; otherwise [ZeroDivisionError]
    when no candidate has a document, [ValueError] when exactly one has
    none, and in the remaining case a model, which is the closed form
    [trained_model] of the tables the loop left. *)
Theorem fit_outcome docs :
  (fit docs).2
  = if labels_known docs then
      if decide (class_count trump docs = 0 /\ class_count hillary docs = 0)%Z
      then Raise ZeroDivisionError
      else if decide (class_count trump docs = 0 \/ class_count hillary docs = 0)%Z
      then Raise ValueError
      else Ok (trained_model (train docs).1)
    else Raise KeyError.
Proof.
  destruct (labels_known docs) eqn:Hl.
  - pose proof (class_count_nonneg trump docs) as Nt.
    pose proof (class_count_nonneg hillary docs) as Nh.
    case_decide as Hz; [|case_decide as Ho].
    + destruct Hz as [Zt Zh].
      rewrite (class_count_all_zero docs Hl Zt Zh). by rewrite fit_no_docs.
    + pose proof (train_run docs Hl) as E.
      destruct (train_ok_inv _ _ E) as (_ & Hg & T).
      assert ((train docs).2 = Ok tt) as E2 by (by rewrite E).
      unfold fit. simpl. rewrite E2. simpl.
      rewrite derive_word_probabilities_run by done. simpl.
      destruct Ho as [Ho|Ho].
      * rewrite (compute_log_priors_one_sided _ trump); [done|by rewrite T|].
        rewrite T. simpl. lia.
      * rewrite (compute_log_priors_one_sided _ hillary); [done|by rewrite T|].
        rewrite T. simpl. lia.
    + rewrite fit_run; [done..|lia|lia].
  - unfold fit. simpl. destruct (train docs) as [g [[]|e]] eqn:E; simpl.
    + unfold train in E.
      rewrite (train_loop_ok_labels docs _ _ initial_globals_ok E) in Hl. done.
    + by destruct (train_loop_raise docs _ _ _ initial_globals_ok E)
        as (_ & _ & _ & _ & _ & _ & -> & _).
Qed.

(** X19: joining well-formed tokens (non-empty, of [a]..[z] and [0]..[9])
    with single spaces and tokenizing the result gives the tokens back. *)
Theorem tokenize_join_round_trip (tokens : list string) :
  Forall is_token tokens -> tokenize (join " " tokens) = tokens.
Proof. apply tokenize_join. Qed.

Lemma tokenize_join_round_trip_witness :
  tokenize (join " " ["make"; "america"; "great"; "2016"])
  = ["make"; "america"; "great"; "2016"].
Proof.
  apply tokenize_join_round_trip. repeat constructor.
Defined.
